(** * Order modification service (hu6_ModPedido.py)

    A shallow embedding of the order-mutation pipeline: the [ModEvent]
    request with its ordering, the priority queue the worker drains, the
    SQLite-backed [OrderRepository] with its conditional update, the two
    notification buses, and [ModService] with its retry loop and metrics.

    Conventions of the embedding:
    - Python floats (wall-clock seconds, latencies, back-off delays) are
      exact rationals [Q]: the rounding of binary floating point is not
      followed, and [round(x, 1)] is the rounding of the exact value.
    - [time.time()] is an oracle [clock : nat -> Q]; the world counts how
      many readings were taken, so the k-th call returns [clock k].
    - [datetime.strptime(s, "%Y-%m-%d %H:%M:%S").timestamp()] is an oracle
      [strptime : string -> option Q]; [None] stands for its ValueError.
    - The [orders] table is a finite map from the primary key to the row.
      The service is the only writer while it runs, and I/O failures of
      SQLite itself are outside the model. An integer bound to a statement
      must fit SQLite's signed 64-bit INTEGER; the primary keys of the
      table are such integers.
    - A string is a sequence of code points below 256 (Latin-1);
      [str.strip()] trims the white space among them.
    - The callbacks injected into the buses and into the service are
      oracles that return or raise.
    - The worker is followed on the requests that are in the queue; the
      stop flag, which another thread sets together with the stop signal
      it enqueues, is followed through that signal.
    - Every externally visible call is appended to a trace. *)

From Stdlib Require Import ZArith QArith Qround Lqa String Ascii List Lia
  Permutation Sorted Zify ZifyNat.
From stdpp Require Import gmap strings list sorting.

Close Scope Q_scope.
Open Scope string_scope.
Open Scope list_scope.
Open Scope Z_scope.

(** ** Exceptions and results *)

Inductive exn : Type :=
| ValueError       (* strptime on a malformed timestamp *)
| TypeError        (* '<' between None and a value *)
| IntegrityError   (* CHECK(qty > 0) violated by an UPDATE *)
| OverflowError    (* an int outside 64 bits bound to a statement *)
| IndexError       (* list index out of range *)
| CallbackError.   (* raised by an injected UI callback *)

Inductive Res (A : Type) : Type :=
| Ok (a : A)
| Raise (e : exn).
Arguments Ok {A} a.
Arguments Raise {A} e.

Definition res_bind {A B} (r : Res A) (k : A -> Res B) : Res B :=
  match r with
  | Ok a => k a
  | Raise e => Raise e
  end.

(** ** Constants of the module *)

Definition EDIT_WINDOW_SECONDS : Q := inject_Z (5 * 60).
Definition MAX_RETRIES : nat := 3.
Definition INITIAL_BACKOFF_S : Q := (1 # 4)%Q.

(** [a > b] on floats. *)
Definition Qgtb (a b : Q) : bool := negb (Qle_bool a b).

(** ** Strings: truthiness and [str.strip()] *)

(** Python's [if s:] for an [Optional[str]]. *)
Definition truthy (s : option string) : bool :=
  match s with
  | None => false
  | Some EmptyString => false
  | Some _ => true
  end.

(** The code points below 256 for which [str.isspace()] holds: TAB, LF, VT,
    FF, CR, FS, GS, RS, US, SPACE, NEL (U+0085) and NO-BREAK SPACE
    (U+00A0). *)
Definition isspace (c : ascii) : bool :=
  let n := nat_of_ascii c in
  ((9 <=? n)%nat && (n <=? 13)%nat) || ((28 <=? n)%nat && (n <=? 32)%nat)
  || (n =? 133)%nat || (n =? 160)%nat.

Fixpoint lstrip (s : string) : string :=
  match s with
  | String c s' => if isspace c then lstrip s' else s
  | EmptyString => EmptyString
  end.

Fixpoint rstrip (s : string) : string :=
  match s with
  | String c s' =>
      match rstrip s' with
      | EmptyString => if isspace c then EmptyString else String c EmptyString
      | r => String c r
      end
  | EmptyString => EmptyString
  end.

Definition strip (s : string) : string := rstrip (lstrip s).

(** ** Rows of the [orders] table *)

Module Order.
Record t : Type := mk {
  id : Z;
  client_name : string;
  product : string;
  size : string;
  qty : Z;
  payment_method : string;
  state : string;
  created_at : string;
  confirmed_at : option string
}.
End Order.

(** ** Change sets

    The dictionary [changes] is only ever read through
    [field in changes and changes[field] is not None] for the five editable
    columns, so it is represented by what that test yields for each of
    them: [None] when the key is missing or maps to [None]. *)

Module Changes.
Record t : Type := mk {
  client_name : option string;
  product : option string;
  size : option string;
  qty : option Z;
  payment_method : option string
}.

Definition empty : t := mk None None None None None.

(** [sets] stays empty in [apply_modification_atomic]. *)
Definition is_empty (c : t) : bool :=
  match client_name c, product c, size c, qty c, payment_method c with
  | None, None, None, None, None => true
  | _, _, _, _, _ => false
  end.
End Changes.

(** ** Python values under [==] and [<]

    The fields of a request are integers (booleans included), strings or
    [None]. [==] never raises; [<] between [None] and anything, or between
    values of different types, raises TypeError. *)

Inductive Atom : Type :=
| AInt (n : Z)
| AStr (s : string)
| ANone.

Definition atom_eqb (x y : Atom) : bool :=
  match x, y with
  | AInt a, AInt b => a =? b
  | AStr a, AStr b => String.eqb a b
  | ANone, ANone => true
  | _, _ => false
  end.

Definition atom_lt (x y : Atom) : Res bool :=
  match x, y with
  | AInt a, AInt b => Ok (a <? b)
  | AStr a, AStr b => Ok (String.ltb a b)
  | _, _ => Raise TypeError
  end.

(** [t1 < t2] on tuples: the first position where the two differ under
    [==] decides; a proper prefix is smaller. *)
Fixpoint tuple_lt (t1 t2 : list Atom) : Res bool :=
  match t1, t2 with
  | [], [] => Ok false
  | [], _ :: _ => Ok true
  | _ :: _, [] => Ok false
  | x :: t1', y :: t2' => if atom_eqb x y then tuple_lt t1' t2' else atom_lt x y
  end.

Definition opt_str (s : option string) : Atom :=
  match s with Some s => AStr s | None => ANone end.

Definition opt_int (n : option Z) : Atom :=
  match n with Some n => AInt n | None => ANone end.

(** ** Modification requests *)

Module ModEvent.
Record t : Type := mk {
  urgent : bool;
  order_id : Z;
  new_client_name : option string;
  new_product : option string;
  new_size : option string;
  new_qty : option Z;
  new_payment_method : option string;
  req_id : string;
  requested_at : string
}.

(** [qty] of [__post_init__]. *)
Definition effective_qty (ev : t) : Z :=
  match new_qty ev with
  | Some q => if 0 <? q then q else 9999
  | None => 9999
  end.

(** [prio] of [__post_init__]. *)
Definition prio (ev : t) : Z := if urgent ev then 0 else 1.

(** The field [sort_index], fixed by [__post_init__] at construction. *)
Definition sort_index (ev : t) : Z * Z := (prio ev, effective_qty ev).

(** The tuple of fields that [@dataclass(order=True)] compares, in
    declaration order. The pair [sort_index] is laid out flat: two pairs
    differ where their first differing component differs, and that
    component decides [<]. *)
Definition astuple (ev : t) : list Atom :=
  [ AInt (fst (sort_index ev)); AInt (snd (sort_index ev));
    AInt (Z.b2z (urgent ev)); AInt (order_id ev);
    opt_str (new_client_name ev); opt_str (new_product ev);
    opt_str (new_size ev); opt_int (new_qty ev);
    opt_str (new_payment_method ev);
    AStr (req_id ev); AStr (requested_at ev) ].

(** [__lt__] generated by the dataclass decorator. *)
Definition lt (a b : t) : Res bool := tuple_lt (astuple a) (astuple b).
End ModEvent.

(** ** heapq, as used by [queue.PriorityQueue] *)

Section Heapq.
Context {A : Type}.
Variable lt : A -> A -> Res bool.

(** The [while pos > startpos] loop of [_siftdown]. *)
Fixpoint siftdown_loop (fuel : nat) (heap : list A) (newitem : A)
    (startpos pos : nat) : Res (list A) :=
  match fuel with
  | O => Ok (<[pos := newitem]> heap)
  | S fuel' =>
      if (startpos <? pos)%nat then
        let parentpos := ((pos - 1) / 2)%nat in
        match heap !! parentpos with
        | None => Raise IndexError
        | Some parent =>
            res_bind (lt newitem parent) (fun b =>
              if b then siftdown_loop fuel' (<[pos := parent]> heap) newitem
                         startpos parentpos
              else Ok (<[pos := newitem]> heap))
        end
      else Ok (<[pos := newitem]> heap)
  end.

Definition _siftdown (heap : list A) (startpos pos : nat) : Res (list A) :=
  match heap !! pos with
  | None => Raise IndexError
  | Some newitem => siftdown_loop (S pos) heap newitem startpos pos
  end.

(** The [while childpos < endpos] loop of [_siftup]; returns the heap and
    the position the hole has reached. *)
Fixpoint siftup_loop (fuel : nat) (heap : list A) (pos : nat) : Res (list A * nat) :=
  match fuel with
  | O => Ok (heap, pos)
  | S fuel' =>
      let endpos := length heap in
      let childpos := (2 * pos + 1)%nat in
      if (childpos <? endpos)%nat then
        let rightpos := (childpos + 1)%nat in
        res_bind
          (if (rightpos <? endpos)%nat then
             match heap !! childpos, heap !! rightpos with
             | Some l, Some r =>
                 res_bind (lt l r) (fun b => Ok (if b then childpos else rightpos))
             | _, _ => Raise IndexError
             end
           else Ok childpos)
          (fun c =>
             match heap !! c with
             | None => Raise IndexError
             | Some x => siftup_loop fuel' (<[pos := x]> heap) c
             end)
      else Ok (heap, pos)
  end.

Definition _siftup (heap : list A) (pos : nat) : Res (list A) :=
  match heap !! pos with
  | None => Raise IndexError
  | Some newitem =>
      res_bind (siftup_loop (length heap) heap pos) (fun '(heap', pos') =>
        _siftdown (<[pos' := newitem]> heap') pos pos')
  end.

Definition heappush (heap : list A) (item : A) : Res (list A) :=
  _siftdown (heap ++ [item]) 0 (length heap).

(** [heappop] on a non-empty heap; [None] on the empty one, where
    [PriorityQueue.get] reports [queue.Empty] instead of calling it. *)
Definition heappop (heap : list A) : Res (option (A * list A)) :=
  match last heap with
  | None => Ok None
  | Some lastelt =>
      match take (length heap - 1) heap with
      | [] => Ok (Some (lastelt, []))
      | returnitem :: rest =>
          res_bind (_siftup (lastelt :: rest) 0) (fun heap' =>
            Ok (Some (returnitem, heap')))
      end
  end.

(** Push a sequence of items, one [put] after the other. *)
Fixpoint push_all (heap : list A) (items : list A) : Res (list A) :=
  match items with
  | [] => Ok heap
  | x :: items' => res_bind (heappush heap x) (fun heap' => push_all heap' items')
  end.

(** Pop until the queue is empty; the items in the order they come out. *)
Fixpoint drain (fuel : nat) (heap : list A) : Res (list A) :=
  match fuel with
  | O => Ok []
  | S fuel' =>
      res_bind (heappop heap) (fun r =>
        match r with
        | None => Ok []
        | Some (x, heap') => res_bind (drain fuel' heap') (fun out => Ok (x :: out))
        end)
  end.
End Heapq.

(** ** Metrics, log records and the trace of effects *)

Module Metrics.
(** The dictionary [ModService.metrics]: its integer entries live in
    [counts] (the four outcome codes and ["processed"]), its one float
    entry in [avg_latency_ms]. *)
Record t : Type := mk {
  counts : gmap string Z;
  avg_latency_ms : Q
}.

Definition init : t :=
  mk (<["MOD_OK" := 0]> (<["TIME_EXPIRED" := 0]> (<["SYNC_FAIL" := 0]>
       (<["MOD_FAIL" := 0]> (<["processed" := 0]> ∅)))))
     (inject_Z 0).

(** [metrics[k]] for an integer entry. *)
Definition get (m : t) (k : string) : Z := default 0 (counts m !! k).
End Metrics.

Record Info : Type := mkInfo {
  reason : option string;
  info_changes : option Changes.t
}.

Definition no_info : Info := mkInfo None None.

(** [log_obj] of [_finish]; [finished_at] (a fresh [now_str()]) is
    formatting and is left out. *)
Record LogRecord : Type := mkLog {
  tx_id : string;
  log_order_id : Z;
  log_urgent : bool;
  log_requested_at : string;
  code : string;
  latency_ms : Q;
  info : Info
}.

Inductive Effect : Type :=
| EApply (oid : Z) (changes : Changes.t) (r : Res bool)
      (* repo.apply_modification_atomic returned or raised *)
| EFetch (oid : Z)                                (* repo.fetch_one *)
| ESleep (seconds : Q)                            (* time.sleep *)
| EKitchen (oid : Z) (changes : Changes.t)        (* kitchen.notify_update *)
| EClient (oid : Z) (changes : Changes.t)         (* client.notify_update *)
| ELog (r : LogRecord)                            (* logger.info *)
| EMetrics (m : Metrics.t).                       (* ui_metrics_update *)

(** ** The environment of the service *)

Record Env : Type := mkEnv {
  strptime : string -> option Q;
  clock : nat -> Q;
  kitchen_ui_append : Z -> Changes.t -> Res unit;
  client_ui_append : Z -> Changes.t -> Res unit;
  ui_metrics_update : Metrics.t -> Res unit
}.

Record World : Type := mkWorld {
  db : gmap Z Order.t;
  ticks : nat;
  metrics : Metrics.t;
  trace : list Effect
}.

(** ** State and exception monad

    A raised exception keeps the world reached so far, as in Python. *)

Definition M (A : Type) : Type := World -> World * Res A.

Definition ret {A} (a : A) : M A := fun w => (w, Ok a).

Definition raise {A} (e : exn) : M A := fun w => (w, Raise e).

Definition bind {A B} (m : M A) (k : A -> M B) : M B :=
  fun w =>
    match m w with
    | (w', Ok a) => k a w'
    | (w', Raise e) => (w', Raise e)
    end.

Notation "x <- m ;; k" := (bind m (fun x => k))
  (at level 100, m at next level, right associativity).
Notation "m ;;; k" := (bind m (fun _ => k))
  (at level 100, right associativity).

Definition lift {A} (r : Res A) : M A := fun w => (w, r).

(** [try: m except Exception: h]. *)
Definition try_except {A} (m : M A) (h : M A) : M A :=
  fun w =>
    match m w with
    | (w', Ok a) => (w', Ok a)
    | (w', Raise _) => h w'
    end.

Definition emit (e : Effect) : M unit :=
  fun w => (mkWorld (db w) (ticks w) (metrics w) (trace w ++ [e]), Ok tt).

Definition get_db : M (gmap Z Order.t) := fun w => (w, Ok (db w)).

Definition put_db (d : gmap Z Order.t) : M unit :=
  fun w => (mkWorld d (ticks w) (metrics w) (trace w), Ok tt).

Definition get_metrics : M Metrics.t := fun w => (w, Ok (metrics w)).

Definition put_metrics (m : Metrics.t) : M unit :=
  fun w => (mkWorld (db w) (ticks w) m (trace w), Ok tt).

Section Service.
Variable E : Env.

(** [time.time()]. *)
Definition time_time : M Q :=
  fun w => (mkWorld (db w) (S (ticks w)) (metrics w) (trace w),
            Ok (clock E (ticks w))).

(** [time.sleep(s)]. *)
Definition time_sleep (s : Q) : M unit := emit (ESleep s).

Definition to_ts (dt_str : option string) : Res (option Q) :=
  match dt_str with
  | None => Ok None
  | Some s =>
      if truthy dt_str then
        match strptime E s with
        | Some t => Ok (Some t)
        | None => Raise ValueError
        end
      else Ok None
  end.

(** *** OrderRepository *)

(** A Python int bound to a [?] of a statement must fit SQLite's signed
    64-bit INTEGER; [sqlite3] raises OverflowError otherwise. *)
Definition in_int64 (z : Z) : bool := (- 2 ^ 63 <=? z) && (z <? 2 ^ 63).

(** [SELECT ... FROM orders WHERE id=?] with [order_id] bound. The ids of
    the table are 64-bit rowids, so an id found in the table has been
    bound. *)
Definition select (d : gmap Z Order.t) (order_id : Z) : Res (option Order.t) :=
  match d !! order_id with
  | Some row => Ok (Some row)
  | None => if in_int64 order_id then Ok None else Raise OverflowError
  end.

(** The parameters of the [UPDATE] can be bound: of the values of a change
    set only the quantity is an int. *)
Definition binds (changes : Changes.t) : bool :=
  match Changes.qty changes with
  | Some q => in_int64 q
  | None => true
  end.

Definition fetch_one (order_id : Z) : M (option Order.t) :=
  d <- get_db ;;
  emit (EFetch order_id) ;;;
  lift (select d order_id).

Definition locked_state (state : string) : bool :=
  bool_decide (state = "cancelled") || bool_decide (state = "cooking")
  || bool_decide (state = "done").

(** The row after [UPDATE orders SET ... WHERE id=?]. *)
Definition update_row (changes : Changes.t) (row : Order.t) : Order.t :=
  Order.mk (Order.id row)
    (default (Order.client_name row) (Changes.client_name changes))
    (default (Order.product row) (Changes.product changes))
    (default (Order.size row) (Changes.size changes))
    (default (Order.qty row) (Changes.qty changes))
    (default (Order.payment_method row) (Changes.payment_method changes))
    (Order.state row) (Order.created_at row) (Order.confirmed_at row).

(** The column constraint [CHECK(qty > 0)]. *)
Definition check_qty (changes : Changes.t) : bool :=
  match Changes.qty changes with
  | Some q => 0 <? q
  | None => true
  end.

(** The transaction body; every [return False] follows a rollback, and an
    exception leaves the [with] block through a rollback too, so the
    table is replaced only on the committing path. *)
Definition apply_modification_body (order_id : Z) (changes : Changes.t) : M bool :=
  d <- get_db ;;
  row <- lift (select d order_id) ;;
  match row with
  | None => ret false
  | Some row =>
      let confirmed_at := Order.confirmed_at row in
      if negb (truthy confirmed_at) then ret false
      else
        ts <- lift (to_ts confirmed_at) ;;
        match ts with
        | None => ret false
        | Some ts =>
            now <- time_time ;;
            if Qgtb (now - ts)%Q EDIT_WINDOW_SECONDS then ret false
            else if locked_state (Order.state row) then ret false
            else if Changes.is_empty changes then ret false
            else if negb (binds changes) then raise OverflowError
            else if negb (check_qty changes) then raise IntegrityError
            else
              put_db (<[order_id := update_row changes row]> d) ;;;
              ret true
        end
  end.

Definition apply_modification_atomic (order_id : Z) (changes : Changes.t) : M bool :=
  fun w =>
    match apply_modification_body order_id changes w with
    | (w', r) => (mkWorld (db w') (ticks w') (metrics w')
                    (trace w' ++ [EApply order_id changes r]), r)
    end.

(** *** KitchenBus and ClientBus *)

Definition kitchen_notify_update (order_id : Z) (changes : Changes.t) : M unit :=
  emit (EKitchen order_id changes) ;;;
  lift (kitchen_ui_append E order_id changes).

Definition client_notify_update (order_id : Z) (changes : Changes.t) : M unit :=
  emit (EClient order_id changes) ;;;
  lift (client_ui_append E order_id changes).

(** *** ModService *)

(** The integer nearest to [x], a tie going to the even one. *)
Definition round_half_even (x : Q) : Z :=
  let f := Qfloor x in
  let r := (x - inject_Z f)%Q in
  if Qle_bool r (1 # 2) then
    if Qle_bool (1 # 2) r then (if Z.even f then f else f + 1) else f
  else f + 1.

(** [round(x, 1)]. *)
Definition round1 (x : Q) : Q :=
  (inject_Z (round_half_even (x * inject_Z 10)) / inject_Z 10)%Q.

Definition _update_latency (ms : Q) : M unit :=
  m <- get_metrics ;;
  let n := inject_Z (Metrics.get m "processed") in
  let avg := Metrics.avg_latency_ms m in
  put_metrics (Metrics.mk (Metrics.counts m) ((avg * n + ms) / (n + 1))%Q).

Definition _finish (ev : ModEvent.t) (code : string) (t0 : Q) (info : Info) : M unit :=
  now <- time_time ;;
  let latency_ms := ((now - t0) * inject_Z 1000)%Q in
  m <- get_metrics ;;
  let c1 := <["processed" := Metrics.get m "processed" + 1]> (Metrics.counts m) in
  let c2 := <[code := default 0 (c1 !! code) + 1]> c1 in
  put_metrics (Metrics.mk c2 (Metrics.avg_latency_ms m)) ;;;
  _update_latency latency_ms ;;;
  emit (ELog (mkLog (ModEvent.req_id ev) (ModEvent.order_id ev)
                (ModEvent.urgent ev) (ModEvent.requested_at ev)
                code (round1 latency_ms) info)) ;;;
  m' <- get_metrics ;;
  emit (EMetrics m') ;;;
  lift (ui_metrics_update E m').

(** The dictionary [changes] built from the request. *)
Definition strip_if_truthy (s : option string) : option string :=
  if truthy s then strip <$> s else None.

Definition build_changes (ev : ModEvent.t) : Changes.t :=
  Changes.mk
    (strip_if_truthy (ModEvent.new_client_name ev))
    (strip_if_truthy (ModEvent.new_product ev))
    (strip_if_truthy (ModEvent.new_size ev))
    (match ModEvent.new_qty ev with
     | Some q => if 0 <? q then Some q else None
     | None => None
     end)
    (strip_if_truthy (ModEvent.new_payment_method ev)).

Definition valid_products : list string := ["pepperoni"; "hawaiana"].
Definition valid_sizes : list string := ["personal"; "mediana"; "grande"].
Definition valid_pay : list string := ["efectivo"; "tarjeta"; "transferencia"].

(** ["f" in changes and changes["f"] not in valid]. *)
Definition present_invalid (v : option string) (valid : list string) : bool :=
  match v with
  | Some s => negb (bool_decide (s ∈ valid))
  | None => false
  end.

(** The variables the retry loop leaves behind. *)
Record LoopOut : Type := mkLoopOut {
  applied : bool;
  loop_code : string;
  loop_info : Info
}.

(** [for attempt in range(...)] with [n] attempts left. *)
Fixpoint retry_loop (n : nat) (order_id : Z) (changes : Changes.t)
    (backoff : Q) (code : string) (info : Info) : M LoopOut :=
  match n with
  | O => ret (mkLoopOut false code info)
  | S n' =>
      ok <- apply_modification_atomic order_id changes ;;
      if ok then ret (mkLoopOut true code info)
      else
        current <- fetch_one order_id ;;
        match current with
        | None =>
            ret (mkLoopOut false "MOD_FAIL"
                   (mkInfo (Some "not_found_or_unconfirmed") (info_changes info)))
        | Some cur =>
            if negb (truthy (Order.confirmed_at cur)) then
              ret (mkLoopOut false "MOD_FAIL"
                     (mkInfo (Some "not_found_or_unconfirmed") (info_changes info)))
            else
              ts <- lift (to_ts (Order.confirmed_at cur)) ;;
              match ts with
              | None =>
                  ret (mkLoopOut false "TIME_EXPIRED"
                         (mkInfo (Some "edit_window_passed") (info_changes info)))
              | Some ts =>
                  now <- time_time ;;
                  if Qgtb (now - ts)%Q EDIT_WINDOW_SECONDS then
                    ret (mkLoopOut false "TIME_EXPIRED"
                           (mkInfo (Some "edit_window_passed") (info_changes info)))
                  else
                    time_sleep backoff ;;;
                    retry_loop n' order_id changes (backoff * inject_Z 2)%Q code info
              end
        end
  end.

(** One iteration of [_worker_loop] for a popped request that is not the
    stop signal. *)
Definition process_event (ev : ModEvent.t) : M unit :=
  t0 <- time_time ;;
  let changes := build_changes ev in
  if present_invalid (Changes.product changes) valid_products then
    _finish ev "MOD_FAIL" t0 (mkInfo (Some "invalid_product") None)
  else if present_invalid (Changes.size changes) valid_sizes then
    _finish ev "MOD_FAIL" t0 (mkInfo (Some "invalid_size") None)
  else if present_invalid (Changes.payment_method changes) valid_pay then
    _finish ev "MOD_FAIL" t0 (mkInfo (Some "invalid_payment") None)
  else
    out <- retry_loop MAX_RETRIES (ModEvent.order_id ev) changes
             INITIAL_BACKOFF_S "MOD_FAIL" no_info ;;
    if negb (applied out) then
      let code := if bool_decide (loop_code out = "TIME_EXPIRED")
                  then loop_code out else "MOD_FAIL" in
      _finish ev code t0 (loop_info out)
    else
      let info := mkInfo (reason (loop_info out)) (Some changes) in
      k_ok <- try_except (kitchen_notify_update (ModEvent.order_id ev) changes ;;; ret true)
                         (ret false) ;;
      c_ok <- try_except (client_notify_update (ModEvent.order_id ev) changes ;;; ret true)
                         (ret false) ;;
      let sync_ok := k_ok && c_ok in
      _finish ev (if sync_ok then "MOD_OK" else "SYNC_FAIL") t0 info.
End Service.

(** *** The worker loop over the queue

    [pq.get] blocks until a request arrives; a run of the model ends when
    the queue has been drained, when the stop signal is popped, or when an
    exception leaves the loop. *)

Definition SENTINEL_ORDER_ID : Z := -1.

Fixpoint _worker_loop (E : Env) (fuel : nat) (pq : list ModEvent.t) : M (list ModEvent.t) :=
  match fuel with
  | O => ret pq
  | S fuel' =>
      r <- lift (heappop ModEvent.lt pq) ;;
      match r with
      | None => ret pq
      | Some (ev, pq') =>
          if ModEvent.order_id ev =? SENTINEL_ORDER_ID then ret pq'
          else process_event E ev ;;; _worker_loop E fuel' pq'
      end
  end.

(** A world with an untouched service on top of a given table. *)
Definition init_world (d : gmap Z Order.t) : World :=
  mkWorld d 0 Metrics.init [].

(** ** Reading a trace *)

(** The effects a step added to the trace. *)
Definition new_events (w w' : World) : list Effect :=
  drop (length (trace w)) (trace w').


(** The outcome codes logged, oldest first. *)
Definition logged_codes (tr : list Effect) : list string :=
  omap (fun e => match e with ELog r => Some (code r) | _ => None end) tr.

(** The results of the conditional updates attempted, oldest first. *)
Definition apply_results (tr : list Effect) : list (Res bool) :=
  omap (fun e => match e with EApply _ _ r => Some r | _ => None end) tr.

(** The back-off delays slept, oldest first. *)
Definition sleeps (tr : list Effect) : list Q :=
  omap (fun e => match e with ESleep s => Some s | _ => None end) tr.

Definition outcome_codes : list string :=
  ["MOD_OK"; "TIME_EXPIRED"; "SYNC_FAIL"; "MOD_FAIL"].

(** [processed] equals the sum of the four outcome counters. *)
Definition metrics_inv (m : Metrics.t) : Prop :=
  Metrics.get m "processed" =
    Metrics.get m "MOD_OK" + Metrics.get m "TIME_EXPIRED"
    + Metrics.get m "SYNC_FAIL" + Metrics.get m "MOD_FAIL".

(** ** A sample environment

    A reference instance of the oracles, used to run the model on concrete
    requests: timestamps are read as UTC, the clock and the callbacks are
    given per scenario. *)

Definition digit (c : ascii) : option Z :=
  let n := Z.of_nat (nat_of_ascii c) in
  if (48 <=? n) && (n <=? 57) then Some (n - 48) else None.

Fixpoint number_from (acc : Z) (s : string) : option Z :=
  match s with
  | EmptyString => Some acc
  | String c s' =>
      match digit c with
      | Some d => number_from (10 * acc + d) s'
      | None => None
      end
  end.

Definition number (s : string) : option Z :=
  match s with
  | EmptyString => None
  | _ => number_from 0 s
  end.

(** Days between 1970-01-01 and a date of the proleptic Gregorian calendar. *)
Definition days_from_civil (y m d : Z) : Z :=
  let y' := if m <=? 2 then y - 1 else y in
  let era := y' / 400 in
  let yoe := y' - era * 400 in
  let mp := if 2 <? m then m - 3 else m + 9 in
  let doy := (153 * mp + 2) / 5 + d - 1 in
  let doe := yoe * 365 + yoe / 4 - yoe / 100 + doy in
  era * 146097 + doe - 719468.

(** Fixed-width ["YYYY-MM-DD HH:MM:SS"], read as UTC. *)
Definition utc_strptime (s : string) : option Q :=
  if negb (String.length s =? 19)%nat then None
  else if negb (String.eqb (substring 4 1 s) "-" && String.eqb (substring 7 1 s) "-"
                && String.eqb (substring 10 1 s) " " && String.eqb (substring 13 1 s) ":"
                && String.eqb (substring 16 1 s) ":") then None
  else
    match number (substring 0 4 s), number (substring 5 2 s), number (substring 8 2 s),
          number (substring 11 2 s), number (substring 14 2 s), number (substring 17 2 s) with
    | Some y, Some mo, Some d, Some h, Some mi, Some sec =>
        if (1 <=? mo) && (mo <=? 12) && (1 <=? d) && (d <=? 31)
           && (h <? 24) && (mi <? 60) && (sec <? 62)
        then Some (inject_Z (days_from_civil y mo d * 86400 + h * 3600 + mi * 60 + sec))
        else None
    | _, _, _, _, _, _ => None
    end.

Definition sinks_ok : Z -> Changes.t -> Res unit := fun _ _ => Ok tt.
Definition sink_fails : Z -> Changes.t -> Res unit := fun _ _ => Raise CallbackError.
Definition observer_ok : Metrics.t -> Res unit := fun _ => Ok tt.

(** A clock that starts at [start] and advances by [step] seconds between
    two consecutive readings. *)
Definition linear_clock (start step : Q) : nat -> Q :=
  fun k => (start + inject_Z (Z.of_nat k) * step)%Q.

Definition sample_env (start step : Q) : Env :=
  mkEnv utc_strptime (linear_clock start step) sinks_ok sinks_ok observer_ok.

(** 2024-01-01 12:00:00 UTC in seconds since the epoch. *)
Definition noon : Z := 1704110400.

Definition sample_order (id : Z) (state : string) (confirmed_at : option string) : Order.t :=
  Order.mk id "Ana" "pepperoni" "grande" 1 "efectivo" state
    "2024-01-01 11:58:00" confirmed_at.

Definition sample_db (id : Z) (state : string) (confirmed_at : option string)
  : gmap Z Order.t :=
  <[id := sample_order id state confirmed_at]> ∅.

Definition qty_request (urgent : bool) (order_id : Z) (q : Z) (req_id : string) : ModEvent.t :=
  ModEvent.mk urgent order_id None None None (Some q) None req_id "2024-01-01 12:01:00".

Definition qty_changes (q : Z) : Changes.t :=
  Changes.mk None None None (Some q) None.

(** ** What the conditional update is expected to reject *)

(** "More than five minutes have elapsed since [confirmed_at]" at the
    reading of the clock the call takes. *)
Definition window_elapsed (E : Env) (w : World) (row : Order.t) : bool :=
  match to_ts E (Order.confirmed_at row) with
  | Ok (Some ts) => Qgtb (clock E (ticks w) - ts)%Q EDIT_WINDOW_SECONDS
  | _ => false
  end.

(** The rejection condition as the specification words it: the order does
    not exist, is not in state confirmed, has no confirmedAt, is in a
    terminal state, or the edit window has elapsed. *)
Definition spec_rejects (E : Env) (w : World) (order_id : Z) : bool :=
  match db w !! order_id with
  | None => true
  | Some row =>
      negb (bool_decide (Order.state row = "confirmed"))
      || negb (truthy (Order.confirmed_at row))
      || locked_state (Order.state row)
      || window_elapsed E w row
  end.

(** The rejection condition of the code, as a flat disjunction: the order
    does not exist, has no confirmedAt, is in a terminal state, the edit
    window has elapsed, or the change set has nothing to write. *)
Definition rejects (E : Env) (w : World) (order_id : Z) (changes : Changes.t) : bool :=
  match db w !! order_id with
  | None => true
  | Some row =>
      negb (truthy (Order.confirmed_at row))
      || locked_state (Order.state row)
      || window_elapsed E w row
      || Changes.is_empty changes
  end.

(** A row as the rest of the application leaves it: order intake
    ([create_order] of hu1_RegistroPedido.py) inserts it in state draft
    without a confirmed_at, and confirmation ([confirm_order] of
    hu2_RegistroAutoCocina.py) sets the state confirmed and a confirmed_at
    together. *)
Definition as_written (row : Order.t) : bool :=
  (bool_decide (Order.state row = "draft")
   && bool_decide (Order.confirmed_at row = None))
  || (bool_decide (Order.state row = "confirmed")
      && truthy (Order.confirmed_at row)).

(** The order, when it is in the table, is as the application leaves it. *)
Definition order_as_written (w : World) (order_id : Z) : bool :=
  match db w !! order_id with
  | Some row => as_written row
  | None => true
  end.

(** The stored [confirmed_at] of the order, when there is one, is in the
    format [to_ts] reads. *)
Definition timestamp_parses (E : Env) (w : World) (order_id : Z) : Prop :=
  forall row, db w !! order_id = Some row ->
    exists ts, to_ts E (Order.confirmed_at row) = Ok ts.

(** The three closed-set checks of the worker all pass. *)
Definition locally_valid (ev : ModEvent.t) : bool :=
  negb (present_invalid (Changes.product (build_changes ev)) valid_products)
  && negb (present_invalid (Changes.size (build_changes ev)) valid_sizes)
  && negb (present_invalid (Changes.payment_method (build_changes ev)) valid_pay).

(** The metrics [_finish] leaves, as a function of the metrics it finds. *)
Definition after_finish (m : Metrics.t) (code : string) (latency : Q) : Metrics.t :=
  let c1 := <["processed" := Metrics.get m "processed" + 1]> (Metrics.counts m) in
  let c2 := <[code := default 0 (c1 !! code) + 1]> c1 in
  let n := inject_Z (default 0 (c2 !! "processed")) in
  Metrics.mk c2 ((Metrics.avg_latency_ms m * n + latency) / (n + 1))%Q.

(** The record [_finish] logs for a request it has measured the latency
    [latency] of: the record holds [round(latency, 1)]. *)
Definition log_record (ev : ModEvent.t) (code : string) (latency : Q) (i : Info)
  : LogRecord :=
  mkLog (ModEvent.req_id ev) (ModEvent.order_id ev) (ModEvent.urgent ev)
    (ModEvent.requested_at ev) code (round1 latency) i.

(** The effects the retry loop leaves before it succeeds or gives up:
    updates that returned false or raised, reads, and sleeps. *)
Definition quiet (e : Effect) : bool :=
  match e with
  | EApply _ _ (Ok true) => false
  | EApply _ _ _ | EFetch _ | ESleep _ => true
  | _ => false
  end.

Definition is_ok {A} (r : Res A) : bool :=
  match r with Ok _ => true | Raise _ => false end.

Definition tick (w : World) : World :=
  mkWorld (db w) (S (ticks w)) (metrics w) (trace w).

Definition add_events (w : World) (es : list Effect) : World :=
  mkWorld (db w) (ticks w) (metrics w) (trace w ++ es).


(** The latencies logged, oldest first. *)
Definition logged_latencies (tr : list Effect) : list Q :=
  omap (fun e => match e with ELog r => Some (latency_ms r) | _ => None end) tr.

(** ** Scenarios

    Order 7 was confirmed at noon. The clock advances by 10 ms between two
    readings. *)

Definition confirmed_at_noon : option string := Some "2024-01-01 12:00:00".

(** The service starts one minute after the confirmation. *)
Definition env_in_window : Env := sample_env (inject_Z (noon + 60)) (1 # 100).

(** The service starts five minutes and one second after the confirmation. *)
Definition env_expired : Env := sample_env (inject_Z (noon + 301)) (1 # 100).

(** One minute after the confirmation, with a kitchen display that fails. *)
Definition env_kitchen_down : Env :=
  mkEnv utc_strptime (linear_clock (inject_Z (noon + 60)) (1 # 100))
    sink_fails sinks_ok observer_ok.

Definition world_with (state : string) (confirmed_at : option string) : World :=
  init_world (sample_db 7 state confirmed_at).

(** Three requests that can sit in the queue together: an urgent one, one
    made by the simulation button (no client name), and one made by the
    edit form (client name filled in) for the same order, urgency and
    quantity. *)
Definition urgent_request : ModEvent.t :=
  ModEvent.mk true 9 None (Some "hawaiana") (Some "grande") (Some 5) None
    "req-a" "2024-01-01 12:01:00".
Definition simulated_request : ModEvent.t :=
  ModEvent.mk false 7 None (Some "pepperoni") (Some "mediana") (Some 2) None
    "req-b" "2024-01-01 12:01:00".
Definition form_request : ModEvent.t :=
  ModEvent.mk false 7 (Some "Ana") (Some "pepperoni") (Some "mediana") (Some 2)
    (Some "efectivo") "req-c" "2024-01-01 12:01:00".

(** ** The heap invariant *)

Section HeapInvariant.
Context {A : Type}.
Variable lt : A -> A -> Res bool.

(** [a] is not greater than [b]: [b < a] is defined and false. *)
Definition not_greater (a b : A) : Prop := lt b a = Ok false.

(** [(i - 1) >> 1]. *)
Definition parent (i : nat) : nat := ((i - 1) / 2)%nat.

(** Every item is not smaller than the item at its parent position. *)
Definition heap_ok (h : list A) : Prop :=
  forall i x p, (0 < i)%nat -> h !! i = Some x -> h !! parent i = Some p ->
                not_greater p x.

(** The heap property at every edge that does not touch [pos]. *)
Definition heap_but (h : list A) (pos : nat) : Prop :=
  forall i x p, (0 < i)%nat -> i <> pos -> parent i <> pos ->
                h !! i = Some x -> h !! parent i = Some p -> not_greater p x.

(** [v] is not greater than the items at the children of [pos]. *)
Definition above_children (h : list A) (pos : nat) (v : A) : Prop :=
  forall c x, (0 < c)%nat -> parent c = pos -> h !! c = Some x -> not_greater v x.

(** The item above [pos] is not greater than the items below [pos]. *)
Definition grandparent_ok (h : list A) (pos : nat) : Prop :=
  forall g, (0 < pos)%nat -> h !! parent pos = Some g -> above_children h pos g.
End HeapInvariant.

(** Every pair of requests can be compared: [<] raises for none of them. *)
Definition comparable (evs : list ModEvent.t) : bool :=
  forallb (fun a => forallb (fun b => is_ok (ModEvent.lt a b)) evs) evs.

(** ** The rest of the repository and of the service *)

(** [ORDER BY id DESC] on the rows listed with their primary key. *)
Definition newer (a b : Z * Order.t) : Prop := fst b <= fst a.

Definition newer_dec (a b : Z * Order.t) : Decision (newer a b) :=
  Z_le_dec (fst b) (fst a).

(** [OrderRepository.list_recent]: [limit] is bound, then the rows come by
    descending id, cut at [limit]; SQLite takes a negative [LIMIT] as no
    limit. *)
Definition list_recent (d : gmap Z Order.t) (limit : Z) : Res (list Order.t) :=
  if negb (in_int64 limit) then Raise OverflowError
  else
    let rows := (@merge_sort _ newer newer_dec (map_to_list d)).*2 in
    Ok (if limit <? 0 then rows else take (Z.to_nat limit) rows).

(** [ModService.enqueue]: [pq.put]. *)
Definition enqueue (pq : list ModEvent.t) (ev : ModEvent.t) : Res (list ModEvent.t) :=
  heappush ModEvent.lt pq ev.

(** The request [ModService.stop] puts on the queue:
    [ModEvent(urgent=False, order_id=-1)]. *)
Definition stop_signal (req_id requested_at : string) : ModEvent.t :=
  ModEvent.mk false SENTINEL_ORDER_ID None None None None None req_id requested_at.

(** [s or None]. *)
Definition or_none (s : string) : option string :=
  match s with
  | EmptyString => None
  | _ => Some s
  end.

(** The quantity [_enqueue_mod] reads from the spin box: [int(text.strip())],
    [None] when [int] raises ValueError, kept only when it is positive.
    [int] itself is the oracle [py_int]. *)
Definition form_qty (py_int : string -> option Z) (text : string) : option Z :=
  match py_int (strip text) with
  | Some q => if negb (q =? 0) && (0 <? q) then Some q else None
  | None => None
  end.

(** The request [_enqueue_mod] builds from the widgets of the edit form. *)
Definition form_event (py_int : string -> option Z) (urgent_var order_id : Z)
    (client product size qty_text pay req_id requested_at : string) : ModEvent.t :=
  ModEvent.mk (negb (urgent_var =? 0)) order_id
    (or_none (strip client)) (or_none (strip product)) (or_none (strip size))
    (form_qty py_int qty_text) (or_none (strip pay)) req_id requested_at.

(** A request [_simulate_concurrent] builds from its random draws. *)
Definition simulated_event (urgent : bool) (order_id qty : Z) (size product : string)
    (req_id requested_at : string) : ModEvent.t :=
  ModEvent.mk urgent order_id None (Some product) (Some size) (Some qty) None
    req_id requested_at.

Definition given {A} (o : option A) : bool :=
  match o with Some _ => true | None => false end.

(** Which of the optional fields of a request are filled in. *)
Definition shape (ev : ModEvent.t) : list bool :=
  [ given (ModEvent.new_client_name ev); given (ModEvent.new_product ev);
    given (ModEvent.new_size ev); given (ModEvent.new_qty ev);
    given (ModEvent.new_payment_method ev) ].

(** Producers and the worker on one queue. *)
Inductive QueueOp : Type :=
| Put (ev : ModEvent.t)
| Get.

Definition puts (ops : list QueueOp) : list ModEvent.t :=
  omap (fun op => match op with Put ev => Some ev | Get => None end) ops.

(** Runs the operations in order; for every [Get] that finds a request,
    that request and the queue it leaves. A [Get] on the empty queue finds
    nothing ([queue.Empty]) and the run goes on. *)
Fixpoint run_ops (pq : list ModEvent.t) (ops : list QueueOp)
  : Res (list (ModEvent.t * list ModEvent.t)) :=
  match ops with
  | [] => Ok []
  | Put ev :: ops' => res_bind (enqueue pq ev) (fun pq' => run_ops pq' ops')
  | Get :: ops' =>
      res_bind (heappop ModEvent.lt pq) (fun r =>
        match r with
        | None => run_ops pq ops'
        | Some (x, pq') =>
            res_bind (run_ops pq' ops') (fun out => Ok ((x, pq') :: out))
        end)
  end.

(** The delays of [n] consecutive back-offs that start at [b]. *)
Fixpoint backoff_schedule (n : nat) (b : Q) : list Q :=
  match n with
  | O => []
  | S n' => b :: backoff_schedule n' (b * inject_Z 2)%Q
  end.

(** An attempt that is retried: the update returns false, the order is
    read again, and the loop sleeps. *)
Definition retried_attempt (oid : Z) (ch : Changes.t) (delay : Q) : list Effect :=
  [EApply oid ch (Ok false); EFetch oid; ESleep delay].

(** An attempt that ends the retry loop: the update returns true or raises,
    or it returns false and the loop is left after the order has been read
    again. *)
Definition final_attempt (oid : Z) (ch : Changes.t) (tail : list Effect) : Prop :=
  tail = [EApply oid ch (Ok true)]
  \/ tail = [EApply oid ch (Ok false); EFetch oid]
  \/ exists e, tail = [EApply oid ch (Raise e)].

(** Neither an access to the store nor a sleep. *)
Definition after_retries (e : Effect) : bool :=
  match e with
  | EApply _ _ _ | EFetch _ | ESleep _ => false
  | _ => true
  end.

(** The integers the store binds for a request, its order id and its
    quantity if it has one, fit a signed 64-bit integer. *)
Definition bindable (ev : ModEvent.t) : bool :=
  in_int64 (ModEvent.order_id ev) && binds (build_changes ev).

(** The columns of a row the service has no statement to write. *)
Definition lifecycle (row : Order.t) : Z * string * string * option string :=
  (Order.id row, Order.state row, Order.created_at row, Order.confirmed_at row).

(** A row as order intake leaves it: product, size and payment method in
    their closed sets, and a positive quantity. *)
Definition row_valid (row : Order.t) : Prop :=
  Order.product row ∈ valid_products /\ Order.size row ∈ valid_sizes
  /\ Order.payment_method row ∈ valid_pay /\ 0 < Order.qty row.

(** The request ids logged, oldest first. *)
Definition logged_ids (tr : list Effect) : list string :=
  omap (fun e => match e with ELog r => Some (tx_id r) | _ => None end) tr.


(** Every stored [confirmed_at] is in the format [to_ts] reads. *)
Definition timestamps_parse (E : Env) (d : gmap Z Order.t) : Prop :=
  forall oid row, d !! oid = Some row ->
    exists ts, to_ts E (Order.confirmed_at row) = Ok ts.


(** Two values of the same Python type. *)
Definition same_kind (x y : Atom) : bool :=
  match x, y with
  | AInt _, AInt _ | AStr _, AStr _ | ANone, ANone => true
  | _, _ => false
  end.


(** The values [_simulate_concurrent] draws sizes and products from. *)
Definition simulated_sizes : list string := ["personal"; "mediana"; "grande"].
Definition simulated_products : list string := ["pepperoni"; "hawaiana"].
(** * Properties *)

(** Membership in a list of literals. *)
Ltac list_mem :=
  repeat (apply elem_of_cons; first [left; reflexivity | right]).


Lemma Qgtb_true (a b : Q) : Qgtb a b = true <-> (b < a)%Q.
Proof.
  unfold Qgtb. rewrite negb_true_iff. split.
  - intros H. apply Qnot_le_lt. intros Hle.
    apply Qle_bool_iff in Hle. congruence.
  - intros H. destruct (Qle_bool a b) eqn:Hb; [|reflexivity].
    apply Qle_bool_iff in Hb. exfalso. exact (Qlt_not_le _ _ H Hb).
Qed.

Lemma Qgtb_false (a b : Q) : Qgtb a b = false <-> (a <= b)%Q.
Proof.
  unfold Qgtb. rewrite negb_false_iff. apply Qle_bool_iff.
Qed.

(** ** The conditional update *)

(** The transaction body, with its early returns laid out as a decision
    tree. *)
Lemma apply_modification_body_unfold (E : Env) (oid : Z) (ch : Changes.t) (w : World) :
  apply_modification_body E oid ch w =
  match db w !! oid with
  | None => (w, if in_int64 oid then Ok false else Raise OverflowError)
  | Some row =>
      if negb (truthy (Order.confirmed_at row)) then (w, Ok false)
      else
        match to_ts E (Order.confirmed_at row) with
        | Raise e => (w, Raise e)
        | Ok None => (w, Ok false)
        | Ok (Some ts) =>
            let w1 := mkWorld (db w) (S (ticks w)) (metrics w) (trace w) in
            if Qgtb (clock E (ticks w) - ts)%Q EDIT_WINDOW_SECONDS then (w1, Ok false)
            else if locked_state (Order.state row) then (w1, Ok false)
            else if Changes.is_empty ch then (w1, Ok false)
            else if negb (binds ch) then (w1, Raise OverflowError)
            else if negb (check_qty ch) then (w1, Raise IntegrityError)
            else (mkWorld (<[oid := update_row ch row]> (db w)) (S (ticks w))
                    (metrics w) (trace w), Ok true)
        end
  end.
Proof.
  unfold apply_modification_body, bind, get_db, ret, lift, raise, time_time, put_db,
    select.
  destruct (db w !! oid) as [row|]; [|destruct (in_int64 oid); reflexivity].
  destruct (negb (truthy (Order.confirmed_at row))); [reflexivity|].
  destruct (to_ts E (Order.confirmed_at row)) as [[ts|]|e]; try reflexivity.
  cbn. destruct (Qgtb _ _); [reflexivity|].
  destruct (locked_state _); [reflexivity|].
  destruct (Changes.is_empty ch); [reflexivity|].
  destruct (negb (binds ch)); [reflexivity|].
  destruct (negb (check_qty ch)); reflexivity.
Qed.

Lemma apply_modification_atomic_unfold (E : Env) (oid : Z) (ch : Changes.t) (w : World) :
  apply_modification_atomic E oid ch w =
  (mkWorld (db (fst (apply_modification_body E oid ch w)))
           (ticks (fst (apply_modification_body E oid ch w)))
           (metrics (fst (apply_modification_body E oid ch w)))
           (trace (fst (apply_modification_body E oid ch w))
              ++ [EApply oid ch (snd (apply_modification_body E oid ch w))]),
   snd (apply_modification_body E oid ch w)).
Proof.
  unfold apply_modification_atomic.
  destruct (apply_modification_body E oid ch w); reflexivity.
Qed.

(** The body never touches the metrics nor the trace, and takes at most one
    reading of the clock. *)
Lemma apply_modification_body_frame (E : Env) (oid : Z) (ch : Changes.t) (w : World) :
  metrics (fst (apply_modification_body E oid ch w)) = metrics w
  /\ trace (fst (apply_modification_body E oid ch w)) = trace w
  /\ (ticks w <= ticks (fst (apply_modification_body E oid ch w)) <= S (ticks w))%nat.
Proof.
  rewrite apply_modification_body_unfold.
  destruct (db w !! oid) as [row|]; [|cbn; repeat split; lia].
  destruct (negb (truthy (Order.confirmed_at row))); [cbn; repeat split; lia|].
  destruct (to_ts E (Order.confirmed_at row)) as [[ts|]|e];
    try (cbn; repeat split; lia).
  cbn zeta. destruct (Qgtb _ _); [cbn; repeat split; lia|].
  destruct (locked_state _); [cbn; repeat split; lia|].
  destruct (Changes.is_empty ch); [cbn; repeat split; lia|].
  destruct (negb (binds ch)); [cbn; repeat split; lia|].
  destruct (negb (check_qty ch)); cbn; repeat split; lia.
Qed.

(** C3. Every call of the conditional update is all-or-none. When it
    returns true the target row exists and is replaced by one that carries
    the value of the change set in each column the change set gives and the
    old value in every other column, state, confirmed_at, created_at and id
    included, and no other row changes; when it returns false or raises,
    the table is unchanged. *)
Theorem apply_modification_all_or_none (E : Env) (oid : Z) (ch : Changes.t) (w : World) :
  match snd (apply_modification_atomic E oid ch w) with
  | Ok true =>
      exists row row',
        db w !! oid = Some row
        /\ db (fst (apply_modification_atomic E oid ch w)) = <[oid := row']> (db w)
        /\ Order.client_name row' = default (Order.client_name row) (Changes.client_name ch)
        /\ Order.product row' = default (Order.product row) (Changes.product ch)
        /\ Order.size row' = default (Order.size row) (Changes.size ch)
        /\ Order.qty row' = default (Order.qty row) (Changes.qty ch)
        /\ Order.payment_method row'
           = default (Order.payment_method row) (Changes.payment_method ch)
        /\ Order.state row' = Order.state row
        /\ Order.confirmed_at row' = Order.confirmed_at row
        /\ Order.created_at row' = Order.created_at row
        /\ Order.id row' = Order.id row
  | _ => db (fst (apply_modification_atomic E oid ch w)) = db w
  end.
Proof.
  rewrite apply_modification_atomic_unfold. cbn [fst snd db].
  rewrite apply_modification_body_unfold.
  destruct (db w !! oid) as [row|] eqn:Hrow;
    [|destruct (in_int64 oid); reflexivity].
  destruct (negb (truthy (Order.confirmed_at row))); [reflexivity|].
  destruct (to_ts E (Order.confirmed_at row)) as [[ts|]|e]; try reflexivity.
  cbn zeta. destruct (Qgtb _ _); [reflexivity|].
  destruct (locked_state _); [reflexivity|].
  destruct (Changes.is_empty ch); [reflexivity|].
  destruct (negb (binds ch)); [reflexivity|].
  destruct (negb (check_qty ch)); [reflexivity|].
  cbn [fst snd db]. exists row, (update_row ch row).
  repeat split; reflexivity.
Qed.

(** The decision of the conditional update when the order id and the
    quantity can be bound, the stored timestamp parses and the quantity
    passes the check of the column. *)
Lemma apply_modification_atomic_returns
    (E : Env) (oid : Z) (ch : Changes.t) (w : World) :
  timestamp_parses E w oid ->
  in_int64 oid = true ->
  binds ch = true ->
  check_qty ch = true ->
  snd (apply_modification_atomic E oid ch w) = Ok (negb (rejects E w oid ch))
  /\ db (fst (apply_modification_atomic E oid ch w)) =
       if rejects E w oid ch then db w
       else match db w !! oid with
            | Some row => <[oid := update_row ch row]> (db w)
            | None => db w
            end.
Proof.
  intros Hts Hid Hbind Hqty.
  rewrite apply_modification_atomic_unfold. cbn [fst snd db].
  rewrite apply_modification_body_unfold.
  unfold rejects, window_elapsed, timestamp_parses in *.
  destruct (db w !! oid) as [row|] eqn:Hrow; [|rewrite Hid; split; reflexivity].
  destruct (Hts row eq_refl) as [ts Hparse]. rewrite Hparse.
  destruct (truthy (Order.confirmed_at row)) eqn:Htruthy; cbn [negb orb];
    [|split; reflexivity].
  destruct ts as [ts|].
  - cbn zeta.
    destruct (Qgtb _ _); cbn [orb negb fst snd db].
    { rewrite orb_true_r. split; reflexivity. }
    destruct (locked_state _); cbn [orb negb fst snd db]; [split; reflexivity|].
    destruct (Changes.is_empty ch); cbn [orb negb fst snd db]; [split; reflexivity|].
    rewrite Hbind, Hqty. cbn. split; reflexivity.
  - (* to_ts yields None only for a falsy confirmed_at *)
    unfold to_ts in Hparse. destruct (Order.confirmed_at row) as [s|]; [|discriminate].
    rewrite Htruthy in Hparse. destruct (strptime E s); discriminate.
Qed.

(** On an order as the application leaves it, the code rejects what the
    specification lists, and an empty change set. *)
Lemma rejects_as_written (E : Env) (w : World) (oid : Z) (ch : Changes.t) :
  order_as_written w oid = true ->
  rejects E w oid ch = spec_rejects E w oid || Changes.is_empty ch.
Proof.
  unfold order_as_written, rejects, spec_rejects, as_written, locked_state.
  destruct (db w !! oid) as [row|]; [|reflexivity].
  intros H. apply orb_true_iff in H as [H|H]; apply andb_true_iff in H as [Hs Hc].
  - apply bool_decide_eq_true_1 in Hs. apply bool_decide_eq_true_1 in Hc.
    rewrite Hs, Hc. reflexivity.
  - apply bool_decide_eq_true_1 in Hs. rewrite Hs, Hc. reflexivity.
Qed.

(** C1, as amended. For an order id and a change set whose quantity (if
    any) fit a signed 64-bit integer, with that quantity positive and the
    stored confirmed_at (if any) in the timestamp format: the conditional
    update returns false and leaves the table unchanged if and only if the
    order does not exist, has no confirmedAt, is in a terminal state, more
    than five minutes have elapsed since confirmedAt at the reading of the
    clock the call takes, or the change set has no field to write; in every
    other case it writes the change set and returns true. On an order as
    the application leaves it (a draft without confirmedAt, or a confirmed
    order with one) the condition is that of the specification, state
    confirmed included, or an empty change set. *)
Theorem apply_modification_atomic_decision
    (E : Env) (oid : Z) (ch : Changes.t) (w : World) :
  timestamp_parses E w oid ->
  in_int64 oid = true ->
  binds ch = true ->
  check_qty ch = true ->
  snd (apply_modification_atomic E oid ch w) = Ok (negb (rejects E w oid ch))
  /\ db (fst (apply_modification_atomic E oid ch w)) =
       (if rejects E w oid ch then db w
        else match db w !! oid with
             | Some row => <[oid := update_row ch row]> (db w)
             | None => db w
             end)
  /\ (order_as_written w oid = true ->
      rejects E w oid ch = spec_rejects E w oid || Changes.is_empty ch).
Proof.
  intros Hts Hid Hbind Hqty.
  destruct (apply_modification_atomic_returns E oid ch w Hts Hid Hbind Hqty)
    as [Hr Hd].
  split; [exact Hr|]. split; [exact Hd|]. apply rejects_as_written.
Qed.

(** A confirmed order, one minute into its window, as the application
    leaves it. With an empty change set, nothing the specification lists
    holds, yet the update returns false. With a quantity of 2^63, nothing
    the specification lists holds either, yet the update neither writes
    nor returns true: binding the quantity raises OverflowError. *)
Lemma apply_modification_atomic_not_as_specified :
  order_as_written (world_with "confirmed" confirmed_at_noon) 7 = true
  /\ spec_rejects env_in_window (world_with "confirmed" confirmed_at_noon) 7 = false
  /\ snd (apply_modification_atomic env_in_window 7 Changes.empty
            (world_with "confirmed" confirmed_at_noon))
     = Ok false
  /\ snd (apply_modification_atomic env_in_window 7 (qty_changes (2 ^ 63))
            (world_with "confirmed" confirmed_at_noon))
     = Raise OverflowError
  /\ db (fst (apply_modification_atomic env_in_window 7 (qty_changes (2 ^ 63))
                (world_with "confirmed" confirmed_at_noon)))
     = db (world_with "confirmed" confirmed_at_noon).
Proof. vm_compute. repeat split; reflexivity. Qed.

(** The decision at a confirmed order, one minute into its window, and a
    change of quantity: not rejected, written. *)
Lemma apply_modification_atomic_decision_witness :
  rejects env_in_window (world_with "confirmed" confirmed_at_noon) 7 (qty_changes 3)
  = false
  /\ snd (apply_modification_atomic env_in_window 7 (qty_changes 3)
            (world_with "confirmed" confirmed_at_noon))
     = Ok true
  /\ db (fst (apply_modification_atomic env_in_window 7 (qty_changes 3)
                (world_with "confirmed" confirmed_at_noon)))
     = <[7 := update_row (qty_changes 3) (sample_order 7 "confirmed" confirmed_at_noon)]>
         (sample_db 7 "confirmed" confirmed_at_noon)
  /\ spec_rejects env_in_window (world_with "confirmed" confirmed_at_noon) 7 = false.
Proof.
  assert (Hts : timestamp_parses env_in_window
                  (world_with "confirmed" confirmed_at_noon) 7).
  { intros row Hrow. vm_compute in Hrow. injection Hrow as <-.
    eexists. vm_compute. reflexivity. }
  destruct (apply_modification_atomic_decision env_in_window 7 (qty_changes 3)
              (world_with "confirmed" confirmed_at_noon) Hts eq_refl eq_refl eq_refl)
    as (Hr & Hd & Hs).
  assert (Hrej : rejects env_in_window (world_with "confirmed" confirmed_at_noon) 7
                   (qty_changes 3) = false) by (vm_compute; reflexivity).
  split; [exact Hrej|]. split; [exact Hr|]. split; [exact Hd|].
  specialize (Hs eq_refl). rewrite Hrej in Hs.
  symmetry in Hs. apply orb_false_iff in Hs as [Hs _]. exact Hs.
Defined.

(** ** Finishing a request *)

Lemma _finish_unfold (E : Env) (ev : ModEvent.t) (c : string) (t0 : Q) (i : Info)
    (w : World) :
  _finish E ev c t0 i w =
  (mkWorld (db w) (S (ticks w))
     (after_finish (metrics w) c ((clock E (ticks w) - t0) * inject_Z 1000)%Q)
     (trace w ++
        [ELog (log_record ev c ((clock E (ticks w) - t0) * inject_Z 1000)%Q i);
         EMetrics (after_finish (metrics w) c
                     ((clock E (ticks w) - t0) * inject_Z 1000)%Q)]),
   ui_metrics_update E
     (after_finish (metrics w) c ((clock E (ticks w) - t0) * inject_Z 1000)%Q)).
Proof.
  unfold _finish, _update_latency, bind, time_time, get_metrics, put_metrics,
    emit, lift, after_finish, log_record, Metrics.get.
  cbn. rewrite <- app_assoc. reflexivity.
Qed.

Lemma get_after_finish_processed (m : Metrics.t) (c : string) (lat : Q) :
  c <> "processed" ->
  Metrics.get (after_finish m c lat) "processed" = Metrics.get m "processed" + 1.
Proof.
  intros Hc. unfold after_finish, Metrics.get. cbn.
  rewrite lookup_insert_ne by done. rewrite lookup_insert_eq. reflexivity.
Qed.

Lemma get_after_finish_code (m : Metrics.t) (c : string) (lat : Q) :
  c <> "processed" ->
  Metrics.get (after_finish m c lat) c = Metrics.get m c + 1.
Proof.
  intros Hc. unfold after_finish, Metrics.get. cbn.
  rewrite lookup_insert_eq. rewrite lookup_insert_ne by done. reflexivity.
Qed.

Lemma get_after_finish_other (m : Metrics.t) (c k : string) (lat : Q) :
  k <> c -> k <> "processed" ->
  Metrics.get (after_finish m c lat) k = Metrics.get m k.
Proof.
  intros Hk Hp. unfold after_finish, Metrics.get. cbn.
  rewrite !lookup_insert_ne by done. reflexivity.
Qed.

Lemma after_finish_inv (m : Metrics.t) (c : string) (lat : Q) :
  c ∈ outcome_codes -> metrics_inv m -> metrics_inv (after_finish m c lat).
Proof.
  intros Hc Hinv. unfold metrics_inv in *. unfold outcome_codes in Hc.
  rewrite get_after_finish_processed
    by (intros ->; repeat (apply elem_of_cons in Hc as [Hc|Hc]; [discriminate|]);
        by apply elem_of_nil in Hc).
  repeat (apply elem_of_cons in Hc as [->|Hc]);
    [ | | | | by apply elem_of_nil in Hc ];
    rewrite get_after_finish_code by discriminate;
    rewrite !get_after_finish_other by discriminate; lia.
Qed.

(** ** The retry loop *)

Lemma apply_modification_atomic_cases (E : Env) (oid : Z) (ch : Changes.t) (w : World) :
  metrics (fst (apply_modification_atomic E oid ch w)) = metrics w
  /\ trace (fst (apply_modification_atomic E oid ch w))
     = trace w ++ [EApply oid ch (snd (apply_modification_atomic E oid ch w))]
  /\ (ticks w <= ticks (fst (apply_modification_atomic E oid ch w)))%nat
  /\ match snd (apply_modification_atomic E oid ch w) with
     | Ok true =>
         exists row, db w !! oid = Some row
           /\ db (fst (apply_modification_atomic E oid ch w))
              = <[oid := update_row ch row]> (db w)
     | Ok false =>
         db (fst (apply_modification_atomic E oid ch w)) = db w
         /\ (db w !! oid = None -> in_int64 oid = true)
     | Raise e =>
         db (fst (apply_modification_atomic E oid ch w)) = db w
         /\ (e = ValueError
             \/ (e = OverflowError
                 /\ (binds ch = false \/ (db w !! oid = None /\ in_int64 oid = false)))
             \/ (e = IntegrityError /\ check_qty ch = false))
     end.
Proof.
  rewrite apply_modification_atomic_unfold. cbn [fst snd db metrics trace ticks].
  destruct (apply_modification_body_frame E oid ch w) as (Hm & Ht & Hk).
  rewrite Hm, Ht. repeat split; [lia|]. clear Hm Ht Hk.
  rewrite apply_modification_body_unfold.
  destruct (db w !! oid) as [row|] eqn:Hrow.
  2: { destruct (in_int64 oid) eqn:Hid; cbn; [auto|].
       split; [reflexivity|]. right. left. auto. }
  assert (Hfalse : forall w1 : World, db w1 = db w ->
            db w1 = db w /\ (Some row = None -> in_int64 oid = true))
    by (intros w1 H1; split; [exact H1|discriminate]).
  destruct (negb (truthy (Order.confirmed_at row))); [apply Hfalse; reflexivity|].
  unfold to_ts.
  destruct (Order.confirmed_at row) as [s|]; [|apply Hfalse; reflexivity].
  destruct (truthy (Some s)); [|apply Hfalse; reflexivity].
  destruct (strptime E s) as [ts|]; [|cbn; auto].
  cbn zeta. destruct (Qgtb _ _); [apply Hfalse; reflexivity|].
  destruct (locked_state _); [apply Hfalse; reflexivity|].
  destruct (Changes.is_empty ch); [apply Hfalse; reflexivity|].
  destruct (binds ch) eqn:Hb; cbn;
    [|split; [reflexivity|]; right; left; auto].
  destruct (check_qty ch) eqn:Hq; cbn;
    [|split; [reflexivity|]; right; right; auto].
  exists row. split; reflexivity.
Qed.

Lemma fetch_one_unfold (oid : Z) (w : World) :
  fetch_one oid w = (add_events w [EFetch oid], select (db w) oid).
Proof. reflexivity. Qed.

(** One pass through the body of the [for] loop. *)
Lemma retry_loop_step (E : Env) (n : nat) (oid : Z) (ch : Changes.t) (backoff : Q)
    (c : string) (i : Info) (w : World) :
  retry_loop E (S n) oid ch backoff c i w =
  match apply_modification_atomic E oid ch w with
  | (w1, Raise e) => (w1, Raise e)
  | (w1, Ok true) => (w1, Ok (mkLoopOut true c i))
  | (w1, Ok false) =>
      let w2 := add_events w1 [EFetch oid] in
      match db w1 !! oid with
      | None =>
          if in_int64 oid then
            (w2, Ok (mkLoopOut false "MOD_FAIL"
                       (mkInfo (Some "not_found_or_unconfirmed") (info_changes i))))
          else (w2, Raise OverflowError)
      | Some cur =>
          if negb (truthy (Order.confirmed_at cur)) then
            (w2, Ok (mkLoopOut false "MOD_FAIL"
                       (mkInfo (Some "not_found_or_unconfirmed") (info_changes i))))
          else
            match to_ts E (Order.confirmed_at cur) with
            | Raise e => (w2, Raise e)
            | Ok None =>
                (w2, Ok (mkLoopOut false "TIME_EXPIRED"
                           (mkInfo (Some "edit_window_passed") (info_changes i))))
            | Ok (Some ts) =>
                if Qgtb (clock E (ticks w2) - ts)%Q EDIT_WINDOW_SECONDS then
                  (tick w2, Ok (mkLoopOut false "TIME_EXPIRED"
                                  (mkInfo (Some "edit_window_passed") (info_changes i))))
                else
                  retry_loop E n oid ch (backoff * inject_Z 2)%Q c i
                    (add_events (tick w2) [ESleep backoff])
            end
      end
  end.
Proof.
  cbn [retry_loop]. unfold bind at 1.
  destruct (apply_modification_atomic E oid ch w) as [w1 [[|]|e]]; try reflexivity.
  unfold bind at 1. rewrite fetch_one_unfold. unfold select.
  destruct (db w1 !! oid) as [cur|]; [|destruct (in_int64 oid); reflexivity].
  destruct (negb (truthy (Order.confirmed_at cur))); [reflexivity|].
  unfold bind at 1, lift at 1.
  destruct (to_ts E (Order.confirmed_at cur)) as [[ts|]|e]; try reflexivity.
  unfold bind at 1, time_time at 1. cbn [ticks add_events].
  destruct (Qgtb _ _); reflexivity.
Qed.

Lemma forallb_quiet_app (l1 l2 : list Effect) :
  forallb quiet l1 = true -> forallb quiet l2 = true ->
  forallb quiet (l1 ++ l2) = true.
Proof. intros H1 H2. rewrite forallb_app, H1, H2. reflexivity. Qed.

(** What the retry loop does to the world, whatever the table and the clock:
    it only appends to the trace, never touches the metrics, and the table
    changes exactly when the loop ends on an update that returned true. *)
Lemma retry_loop_spec (E : Env) (oid : Z) (ch : Changes.t) (n : nat) :
  forall (backoff : Q) (c : string) (i : Info) (w : World),
  exists delta,
    trace (fst (retry_loop E n oid ch backoff c i w)) = trace w ++ delta
    /\ metrics (fst (retry_loop E n oid ch backoff c i w)) = metrics w
    /\ (ticks w <= ticks (fst (retry_loop E n oid ch backoff c i w)))%nat
    /\ match snd (retry_loop E n oid ch backoff c i w) with
       | Ok out =>
           if applied out then
             exists d' row,
               delta = d' ++ [EApply oid ch (Ok true)]
               /\ forallb quiet d' = true
               /\ db w !! oid = Some row
               /\ db (fst (retry_loop E n oid ch backoff c i w))
                  = <[oid := update_row ch row]> (db w)
               /\ loop_code out = c /\ loop_info out = i
           else
             forallb quiet delta = true
             /\ db (fst (retry_loop E n oid ch backoff c i w)) = db w
             /\ (loop_code out = c \/ loop_code out = "MOD_FAIL"
                 \/ loop_code out = "TIME_EXPIRED")
       | Raise e =>
           forallb quiet delta = true
           /\ db (fst (retry_loop E n oid ch backoff c i w)) = db w
           /\ (e = ValueError \/ e = OverflowError
               \/ (e = IntegrityError /\ check_qty ch = false))
       end.
Proof.
  induction n as [|n IH]; intros backoff c i w.
  - exists []. cbn. rewrite app_nil_r. repeat split; auto.
  - rewrite retry_loop_step.
    destruct (apply_modification_atomic_cases E oid ch w) as (Hm & Ht & Hk & Hdb).
    destruct (apply_modification_atomic E oid ch w) as [w1 r1].
    cbn [fst snd] in Hm, Ht, Hk, Hdb.
    destruct r1 as [[|]|e].
    + (* the update succeeded *)
      exists [EApply oid ch (Ok true)]. cbn [fst snd applied].
      repeat split; auto.
      destruct Hdb as (row & Hrow & Hdb).
      exists [], row. repeat split; auto.
    + (* the update returned false *)
      cbn zeta. destruct Hdb as [Hdb Hid].
      assert (Hq1 : forallb quiet [EApply oid ch (Ok false); EFetch oid] = true)
        by reflexivity.
      assert (Happ : trace (add_events w1 [EFetch oid])
                     = trace w ++ [EApply oid ch (Ok false); EFetch oid]).
      { cbn. rewrite Ht, <- app_assoc. reflexivity. }
      destruct (db w1 !! oid) as [cur|] eqn:Hcur.
      2: { rewrite Hdb in Hcur. rewrite (Hid Hcur).
           exists [EApply oid ch (Ok false); EFetch oid]. cbn [fst snd applied].
           repeat split; auto. }
      destruct (negb (truthy (Order.confirmed_at cur))).
      { exists [EApply oid ch (Ok false); EFetch oid]. cbn [fst snd applied].
        repeat split; auto. }
      destruct (to_ts E (Order.confirmed_at cur)) as [[ts|]|e] eqn:Hts.
      * destruct (Qgtb _ _).
        { exists [EApply oid ch (Ok false); EFetch oid]. cbn [fst snd applied].
          repeat split; auto. cbn. lia. }
        destruct (IH (backoff * inject_Z 2)%Q c i
                     (add_events (tick (add_events w1 [EFetch oid])) [ESleep backoff]))
          as (delta & Ht' & Hm' & Hk' & Hres).
        exists ([EApply oid ch (Ok false); EFetch oid; ESleep backoff] ++ delta).
        rewrite Ht', Hm'. cbn [trace add_events tick metrics ticks db] in *.
        rewrite Ht. rewrite <- !app_assoc. cbn [app].
        repeat split; auto; [lia|].
        destruct (snd (retry_loop E n oid ch (backoff * inject_Z 2)%Q c i _))
          as [out|e'].
        -- destruct (applied out).
           ++ destruct Hres as (d' & row & Hd & Hq & Hrow & Hdb' & Hc & Hi).
              exists ([EApply oid ch (Ok false); EFetch oid; ESleep backoff] ++ d'), row.
              rewrite Hd, Hdb in *. rewrite Hdb'.
              repeat split; auto.
           ++ destruct Hres as (Hq & Hdb' & Hc).
              rewrite Hdb', Hdb. repeat split; auto.
        -- destruct Hres as (Hq & Hdb' & He).
           rewrite Hdb', Hdb. repeat split; auto.
      * exists [EApply oid ch (Ok false); EFetch oid]. cbn [fst snd applied].
        repeat split; auto.
      * exists [EApply oid ch (Ok false); EFetch oid]. cbn [fst snd applied].
        repeat split; auto.
        unfold to_ts in Hts. destruct (Order.confirmed_at cur) as [s|]; [|discriminate].
        destruct (truthy (Some s)); [|discriminate].
        destruct (strptime E s); [discriminate|]. injection Hts as <-. auto.
    + (* the update raised *)
      exists [EApply oid ch (Raise e)]. cbn [fst snd].
      destruct Hdb as (Hdb & He). repeat split; auto.
      destruct He as [He|[[He _]|He]]; auto.
Qed.

(** ** One request through the worker *)

(** The iteration body as a decision tree over the local checks, the
    outcome of the retry loop and the two guarded notifications. *)
Lemma process_event_cases (E : Env) (ev : ModEvent.t) (w : World) :
  process_event E ev w =
  let t0 := clock E (ticks w) in
  let oid := ModEvent.order_id ev in
  let ch := build_changes ev in
  if present_invalid (Changes.product ch) valid_products then
    _finish E ev "MOD_FAIL" t0 (mkInfo (Some "invalid_product") None) (tick w)
  else if present_invalid (Changes.size ch) valid_sizes then
    _finish E ev "MOD_FAIL" t0 (mkInfo (Some "invalid_size") None) (tick w)
  else if present_invalid (Changes.payment_method ch) valid_pay then
    _finish E ev "MOD_FAIL" t0 (mkInfo (Some "invalid_payment") None) (tick w)
  else
    match retry_loop E MAX_RETRIES oid ch INITIAL_BACKOFF_S "MOD_FAIL" no_info (tick w) with
    | (w2, Raise e) => (w2, Raise e)
    | (w2, Ok out) =>
        if applied out then
          _finish E ev
            (if is_ok (kitchen_ui_append E oid ch) && is_ok (client_ui_append E oid ch)
             then "MOD_OK" else "SYNC_FAIL")
            t0 (mkInfo (reason (loop_info out)) (Some ch))
            (add_events w2 [EKitchen oid ch; EClient oid ch])
        else
          _finish E ev
            (if bool_decide (loop_code out = "TIME_EXPIRED")
             then loop_code out else "MOD_FAIL")
            t0 (loop_info out) w2
    end.
Proof.
  unfold process_event. unfold bind at 1, time_time at 1. fold (tick w).
  cbn zeta.
  destruct (present_invalid (Changes.product _) _); [reflexivity|].
  destruct (present_invalid (Changes.size _) _); [reflexivity|].
  destruct (present_invalid (Changes.payment_method _) _); [reflexivity|].
  unfold bind at 1.
  destruct (retry_loop _ _ _ _ _ _ _ _) as [w2 [out|e]]; [|reflexivity].
  destruct (applied out); cbn [negb]; [|reflexivity].
  unfold bind at 1, try_except at 1, kitchen_notify_update, bind at 1, emit at 1.
  unfold bind at 1, lift at 1.
  destruct (kitchen_ui_append E _ _) as [[]|ek];
    cbn [ret is_ok andb];
    unfold bind at 1, try_except at 1, client_notify_update, bind at 1, emit at 1;
    unfold bind at 1, lift at 1; cbn [db ticks metrics trace];
    destruct (client_ui_append E _ _) as [[]|ec];
    cbn [ret is_ok andb]; unfold add_events; rewrite <- app_assoc; reflexivity.
Qed.

Lemma new_events_app (w w' : World) (delta : list Effect) :
  trace w' = trace w ++ delta -> new_events w w' = delta.
Proof. intros H. unfold new_events. rewrite H. apply drop_app_length. Qed.

Lemma truthy_Some (s : string) : s <> EmptyString -> truthy (Some s) = true.
Proof. destruct s; [congruence|reflexivity]. Qed.

Lemma to_ts_Some (E : Env) (s : string) (ts : Q) :
  s <> EmptyString -> strptime E s = Some ts -> to_ts E (Some s) = Ok (Some ts).
Proof. intros Hs Hp. unfold to_ts. rewrite (truthy_Some s Hs), Hp. reflexivity. Qed.

Lemma locally_valid_true (ev : ModEvent.t) :
  locally_valid ev = true ->
  present_invalid (Changes.product (build_changes ev)) valid_products = false
  /\ present_invalid (Changes.size (build_changes ev)) valid_sizes = false
  /\ present_invalid (Changes.payment_method (build_changes ev)) valid_pay = false.
Proof.
  unfold locally_valid. rewrite !andb_true_iff, !negb_true_iff. tauto.
Qed.

(** The first pass of the retry loop on an order whose window has elapsed
    at both readings of the clock: one update that returns false, one
    read, and the loop is left with TIME_EXPIRED. *)
Lemma retry_loop_expired (E : Env) (n : nat) (oid : Z) (ch : Changes.t) (backoff : Q)
    (c : string) (i : Info) (w : World) (row : Order.t) (s : string) (ts : Q) :
  db w !! oid = Some row ->
  Order.confirmed_at row = Some s -> s <> EmptyString ->
  strptime E s = Some ts ->
  (EDIT_WINDOW_SECONDS < clock E (ticks w) - ts)%Q ->
  (EDIT_WINDOW_SECONDS < clock E (S (ticks w)) - ts)%Q ->
  retry_loop E (S n) oid ch backoff c i w =
  (mkWorld (db w) (S (S (ticks w))) (metrics w)
     (trace w ++ [EApply oid ch (Ok false); EFetch oid]),
   Ok (mkLoopOut false "TIME_EXPIRED"
         (mkInfo (Some "edit_window_passed") (info_changes i)))).
Proof.
  intros Hrow Hconf Hs Hparse Hnow1 Hnow2.
  rewrite retry_loop_step, apply_modification_atomic_unfold,
    apply_modification_body_unfold.
  rewrite Hrow, Hconf, (truthy_Some s Hs), (to_ts_Some E s ts Hs Hparse).
  cbn [negb]. cbn zeta.
  apply Qgtb_true in Hnow1. rewrite Hnow1.
  cbn [fst snd db ticks metrics trace add_events].
  rewrite Hrow, Hconf, (truthy_Some s Hs), (to_ts_Some E s ts Hs Hparse).
  cbn [negb]. apply Qgtb_true in Hnow2. rewrite Hnow2.
  unfold tick, add_events. cbn [db ticks metrics trace].
  rewrite <- app_assoc. reflexivity.
Qed.

(** C2. A request that passes the local checks, for an order that carries a
    confirmed_at, processed when every reading of the clock is more than
    five minutes past confirmed_at: the worker makes a single attempt,
    finishes with TIME_EXPIRED, counts it under TIME_EXPIRED and not under
    MOD_OK, and leaves the table as it was. *)
Theorem expired_request_yields_TIME_EXPIRED
    (E : Env) (ev : ModEvent.t) (w : World) (row : Order.t) (s : string) (ts : Q) :
  db w !! ModEvent.order_id ev = Some row ->
  Order.confirmed_at row = Some s -> s <> EmptyString ->
  strptime E s = Some ts ->
  (forall k, (ticks w <= k)%nat -> (EDIT_WINDOW_SECONDS < clock E k - ts)%Q) ->
  locally_valid ev = true ->
  db (fst (process_event E ev w)) = db w
  /\ new_events w (fst (process_event E ev w)) =
       [ EApply (ModEvent.order_id ev) (build_changes ev) (Ok false);
         EFetch (ModEvent.order_id ev);
         ELog (log_record ev "TIME_EXPIRED"
                 ((clock E (3 + ticks w) - clock E (ticks w)) * inject_Z 1000)%Q
                 (mkInfo (Some "edit_window_passed") None));
         EMetrics (metrics (fst (process_event E ev w))) ]
  /\ Metrics.get (metrics (fst (process_event E ev w))) "TIME_EXPIRED"
     = Metrics.get (metrics w) "TIME_EXPIRED" + 1
  /\ Metrics.get (metrics (fst (process_event E ev w))) "MOD_OK"
     = Metrics.get (metrics w) "MOD_OK".
Proof.
  intros Hrow Hconf Hs Hparse Hclock Hvalid.
  destruct (locally_valid_true ev Hvalid) as (Hp & Hz & Hy).
  rewrite process_event_cases. cbn zeta. rewrite Hp, Hz, Hy.
  unfold MAX_RETRIES.
  rewrite (retry_loop_expired E 2 _ _ _ _ _ (tick w) row s ts); auto;
    [|apply Hclock; cbn; lia|apply Hclock; cbn; lia].
  cbn [applied loop_code loop_info]. rewrite bool_decide_eq_true_2 by reflexivity.
  rewrite _finish_unfold. cbn [fst db ticks metrics trace tick info_changes no_info].
  split; [reflexivity|]. split.
  - apply new_events_app. cbn [trace]. rewrite <- app_assoc. reflexivity.
  - split.
    + apply get_after_finish_code. discriminate.
    + apply get_after_finish_other; discriminate.
Qed.

Lemma quiet_not_success (l : list Effect) (oid : Z) (ch : Changes.t) :
  forallb quiet l = true -> EApply oid ch (Ok true) ∉ l.
Proof.
  intros Hq Hin. apply list_elem_of_In in Hin.
  rewrite forallb_forall in Hq. specialize (Hq _ Hin). discriminate.
Qed.

Lemma quiet_logged_codes (l : list Effect) :
  forallb quiet l = true -> logged_codes l = [].
Proof.
  induction l as [|e l IH]; [reflexivity|].
  cbn [forallb]. rewrite andb_true_iff. intros [He Hl].
  unfold logged_codes in *. cbn [omap].
  destruct e; try discriminate; cbn; auto.
Qed.

Lemma quiet_not_notification (l : list Effect) (e : Effect) :
  forallb quiet l = true -> e ∈ l -> quiet e = true.
Proof.
  intros Hq Hin. apply list_elem_of_In in Hin.
  rewrite forallb_forall in Hq. auto.
Qed.

Lemma build_changes_check_qty (ev : ModEvent.t) : check_qty (build_changes ev) = true.
Proof.
  unfold check_qty, build_changes. cbn.
  destruct (ModEvent.new_qty ev) as [q|]; [|reflexivity].
  destruct (0 <? q) eqn:Hq; [exact Hq|reflexivity].
Qed.

(** C7. Whenever the conditional update of a request succeeds, the events
    that follow it are exactly: the kitchen notification, then the client
    notification, both with the order id and the change set that was
    applied and both made whether or not the other raised, then the log
    record and the metrics push. The logged outcome is MOD_OK when neither
    notification raised and SYNC_FAIL otherwise, and in both cases the
    table keeps the updated row. *)
Theorem notifications_follow_successful_update
    (E : Env) (ev : ModEvent.t) (w : World) :
  EApply (ModEvent.order_id ev) (build_changes ev) (Ok true)
    ∈ new_events w (fst (process_event E ev w)) ->
  exists before row latency,
    new_events w (fst (process_event E ev w)) =
      before ++
      [ EApply (ModEvent.order_id ev) (build_changes ev) (Ok true);
        EKitchen (ModEvent.order_id ev) (build_changes ev);
        EClient (ModEvent.order_id ev) (build_changes ev);
        ELog (log_record ev
                (if is_ok (kitchen_ui_append E (ModEvent.order_id ev) (build_changes ev))
                    && is_ok (client_ui_append E (ModEvent.order_id ev) (build_changes ev))
                 then "MOD_OK" else "SYNC_FAIL")
                latency (mkInfo None (Some (build_changes ev))));
        EMetrics (metrics (fst (process_event E ev w))) ]
    /\ forallb quiet before = true
    /\ db w !! ModEvent.order_id ev = Some row
    /\ db (fst (process_event E ev w))
       = <[ModEvent.order_id ev := update_row (build_changes ev) row]> (db w).
Proof.
  rewrite process_event_cases. cbn zeta.
  set (oid := ModEvent.order_id ev). set (ch := build_changes ev).
  assert (Hfin : forall c i,
    EApply oid ch (Ok true)
      ∈ new_events w (fst (_finish E ev c (clock E (ticks w)) i (tick w))) -> False).
  { intros c i. rewrite _finish_unfold. cbn [fst].
    erewrite new_events_app by (cbn [trace tick]; reflexivity).
    intros Hin. repeat (apply elem_of_cons in Hin as [Hin|Hin]; [discriminate|]).
    by apply elem_of_nil in Hin. }
  destruct (present_invalid (Changes.product ch) valid_products);
    [intros H; destruct (Hfin _ _ H)|].
  destruct (present_invalid (Changes.size ch) valid_sizes);
    [intros H; destruct (Hfin _ _ H)|].
  destruct (present_invalid (Changes.payment_method ch) valid_pay);
    [intros H; destruct (Hfin _ _ H)|].
  clear Hfin.
  destruct (retry_loop_spec E oid ch MAX_RETRIES INITIAL_BACKOFF_S "MOD_FAIL" no_info
              (tick w)) as (delta & Ht & Hm & Hk & Hres).
  destruct (retry_loop E MAX_RETRIES oid ch INITIAL_BACKOFF_S "MOD_FAIL" no_info (tick w))
    as [w2 [out|e]]; cbn [fst snd] in *.
  - destruct (applied out).
    + destruct Hres as (d' & row & Hd & Hq & Hrow & Hdb & Hc & Hi).
      intros _. rewrite _finish_unfold. cbn [fst db metrics trace add_events tick] in *.
      exists d', row. eexists. rewrite Hi. cbn [reason no_info].
      repeat split; auto.
      apply new_events_app. cbn [trace]. rewrite Ht, Hd.
      rewrite <- !app_assoc. reflexivity.
    + destruct Hres as (Hq & Hdb & Hc).
      rewrite _finish_unfold. cbn [fst].
      erewrite new_events_app
        by (cbn [trace tick] in *; rewrite Ht, <- app_assoc; reflexivity).
      intros Hin. apply elem_of_app in Hin as [Hin|Hin].
      * destruct (quiet_not_success _ _ _ Hq Hin).
      * repeat (apply elem_of_cons in Hin as [Hin|Hin]; [discriminate|]).
        by apply elem_of_nil in Hin.
  - destruct Hres as (Hq & Hdb & He).
    erewrite new_events_app by (cbn [trace tick] in *; exact Ht).
    intros Hin. destruct (quiet_not_success _ _ _ Hq Hin).
Qed.

(** ** Local validation *)




(** ** Retries *)

(** C4, at an order that went to the kitchen one minute after its
    confirmation: the update is rejected for the terminal state, and the
    worker nevertheless sleeps and tries again until the attempts run out. *)
Theorem terminal_state_is_retried_with_backoff :
  apply_results
    (trace (fst (process_event env_in_window (qty_request false 7 3 "req-1")
                   (world_with "cooking" confirmed_at_noon))))
  = [Ok false; Ok false; Ok false]
  /\ Forall2 Qeq
       (sleeps (trace (fst (process_event env_in_window (qty_request false 7 3 "req-1")
                              (world_with "cooking" confirmed_at_noon)))))
       [(1 # 4)%Q; (1 # 2)%Q; inject_Z 1]
  /\ logged_codes
       (trace (fst (process_event env_in_window (qty_request false 7 3 "req-1")
                      (world_with "cooking" confirmed_at_noon))))
     = ["MOD_FAIL"].
Proof.
  split; [vm_compute; reflexivity|]. split; [|vm_compute; reflexivity].
  vm_compute. repeat constructor.
Qed.

(** ** Latency average *)

(** The average after a request, in terms of the number [n] of requests
    finished before it: the divisor is [n + 2], not [n + 1]. *)
Lemma average_after_finish (m : Metrics.t) (c : string) (lat : Q) :
  c <> "processed" ->
  Metrics.avg_latency_ms (after_finish m c lat)
  = ((Metrics.avg_latency_ms m * inject_Z (Metrics.get m "processed" + 1) + lat)
     / (inject_Z (Metrics.get m "processed" + 1) + 1))%Q.
Proof.
  intros Hc. unfold after_finish, Metrics.get. cbn.
  rewrite lookup_insert_ne by done. rewrite lookup_insert_eq. reflexivity.
Qed.

(** C6, at the first request of a fresh service: its latency is 20 ms, and
    the average reported after it is 10 ms. *)
Theorem first_average_is_half_the_latency :
  Forall2 Qeq
    (logged_latencies
       (trace (fst (process_event env_in_window (qty_request false 7 3 "req-1")
                      (world_with "confirmed" confirmed_at_noon)))))
    [inject_Z 20]
  /\ Metrics.get
       (metrics (fst (process_event env_in_window (qty_request false 7 3 "req-1")
                        (world_with "confirmed" confirmed_at_noon)))) "processed" = 1
  /\ (Metrics.avg_latency_ms
        (metrics (fst (process_event env_in_window (qty_request false 7 3 "req-1")
                         (world_with "confirmed" confirmed_at_noon))))
      == inject_Z 10)%Q.
Proof.
  split; [vm_compute; repeat constructor|]. split; vm_compute; reflexivity.
Qed.

(** ** Outcomes and metrics *)

(** Every request either is finished once, with one of the four codes, or
    leaves the iteration through an exception of the store before anything
    is logged or counted. *)
Lemma process_event_outcome (E : Env) (ev : ModEvent.t) (w : World) :
  (exists c lat,
     c ∈ outcome_codes
     /\ logged_codes (new_events w (fst (process_event E ev w))) = [c]
     /\ metrics (fst (process_event E ev w)) = after_finish (metrics w) c lat)
  \/ ((snd (process_event E ev w) = Raise ValueError
       \/ snd (process_event E ev w) = Raise OverflowError)
      /\ logged_codes (new_events w (fst (process_event E ev w))) = []
      /\ metrics (fst (process_event E ev w)) = metrics w).
Proof.
  rewrite process_event_cases. cbn zeta.
  assert (Hfin : forall c i w2 delta,
    c ∈ outcome_codes -> trace w2 = trace w ++ delta -> logged_codes delta = [] ->
    metrics w2 = metrics w ->
    exists c' lat,
      c' ∈ outcome_codes
      /\ logged_codes (new_events w (fst (_finish E ev c (clock E (ticks w)) i w2))) = [c']
      /\ metrics (fst (_finish E ev c (clock E (ticks w)) i w2))
         = after_finish (metrics w) c' lat).
  { intros c i w2 delta Hc Ht Hl Hm. rewrite _finish_unfold. cbn [fst metrics].
    exists c. eexists. split; [exact Hc|]. split.
    - erewrite new_events_app
        by (cbn [trace]; rewrite Ht, <- app_assoc; reflexivity).
      unfold logged_codes in *. rewrite omap_app, Hl. reflexivity.
    - rewrite Hm. reflexivity. }
  assert (Hfail : "MOD_FAIL" ∈ outcome_codes) by (unfold outcome_codes; list_mem).
  assert (Htick : trace (tick w) = trace w ++ []) by (cbn; rewrite app_nil_r; reflexivity).
  destruct (present_invalid (Changes.product _) _);
    [left; apply (Hfin _ _ _ [] Hfail Htick); reflexivity|].
  destruct (present_invalid (Changes.size _) _);
    [left; apply (Hfin _ _ _ [] Hfail Htick); reflexivity|].
  destruct (present_invalid (Changes.payment_method _) _);
    [left; apply (Hfin _ _ _ [] Hfail Htick); reflexivity|].
  destruct (retry_loop_spec E (ModEvent.order_id ev) (build_changes ev) MAX_RETRIES
              INITIAL_BACKOFF_S "MOD_FAIL" no_info (tick w))
    as (delta & Ht & Hm & Hk & Hres).
  destruct (retry_loop E MAX_RETRIES (ModEvent.order_id ev) (build_changes ev)
              INITIAL_BACKOFF_S "MOD_FAIL" no_info (tick w))
    as [w2 [out|e]]; cbn [fst snd trace metrics tick] in *.
  - left. destruct (applied out).
    + destruct Hres as (d' & row & Hd & Hq & _).
      apply (Hfin _ _ _ (delta ++ [EKitchen (ModEvent.order_id ev) (build_changes ev);
                                   EClient (ModEvent.order_id ev) (build_changes ev)])).
      * destruct (_ && _); unfold outcome_codes; list_mem.
      * cbn. rewrite Ht, <- app_assoc. reflexivity.
      * unfold logged_codes. rewrite Hd, !omap_app.
        fold (logged_codes d'). rewrite (quiet_logged_codes d' Hq). reflexivity.
      * exact Hm.
    + destruct Hres as (Hq & _ & _).
      apply (Hfin _ _ _ delta); auto.
      * destruct (bool_decide _) eqn:Hb.
        -- apply bool_decide_eq_true_1 in Hb. rewrite Hb.
           unfold outcome_codes; list_mem.
        -- exact Hfail.
      * apply quiet_logged_codes, Hq.
  - right. destruct Hres as (Hq & _ & He).
    rewrite (new_events_app _ _ _ Ht), (quiet_logged_codes delta Hq).
    destruct He as [->|[->|[_ He]]]; [auto|auto|].
    rewrite build_changes_check_qty in He. discriminate.
Qed.

Lemma process_event_inv (E : Env) (ev : ModEvent.t) (w : World) :
  metrics_inv (metrics w) -> metrics_inv (metrics (fst (process_event E ev w))).
Proof.
  intros Hinv.
  destruct (process_event_outcome E ev w) as [(c & lat & Hc & _ & Hm)|(_ & _ & Hm)];
    rewrite Hm; [apply after_finish_inv; assumption|assumption].
Qed.

Lemma _worker_loop_inv (E : Env) (fuel : nat) :
  forall (pq : list ModEvent.t) (w : World),
  metrics_inv (metrics w) ->
  metrics_inv (metrics (fst (_worker_loop E fuel pq w))).
Proof.
  induction fuel as [|fuel IH]; intros pq w Hinv; [exact Hinv|].
  cbn [_worker_loop]. unfold bind at 1, lift at 1.
  destruct (heappop ModEvent.lt pq) as [[[ev pq']|]|e]; try exact Hinv.
  destruct (ModEvent.order_id ev =? SENTINEL_ORDER_ID); [exact Hinv|].
  unfold bind at 1.
  pose proof (process_event_inv E ev w Hinv) as Hstep.
  destruct (process_event E ev w) as [w1 [[]|e]]; cbn [fst] in *.
  - apply IH, Hstep.
  - exact Hstep.
Qed.

Lemma metrics_inv_init : metrics_inv Metrics.init.
Proof. reflexivity. Qed.

(** C10. From a fresh service, after any number of iterations of the worker
    loop, on any queue and any table, [processed] equals the sum of the four
    outcome counters; and finishing a request with one of the four codes
    adds exactly one to [processed] and to the counter of that code, and
    leaves the other three counters as they were. *)
Theorem processed_is_sum_of_outcomes :
  (forall (E : Env) (fuel : nat) (pq : list ModEvent.t) (d : gmap Z Order.t),
     metrics_inv (metrics (fst (_worker_loop E fuel pq (init_world d)))))
  /\ (forall (E : Env) (ev : ModEvent.t) (c : string) (t0 : Q) (i : Info) (w : World),
        c ∈ outcome_codes ->
        Metrics.get (metrics (fst (_finish E ev c t0 i w))) "processed"
        = Metrics.get (metrics w) "processed" + 1
        /\ Metrics.get (metrics (fst (_finish E ev c t0 i w))) c
           = Metrics.get (metrics w) c + 1
        /\ forall k, k ∈ outcome_codes -> k <> c ->
             Metrics.get (metrics (fst (_finish E ev c t0 i w))) k
             = Metrics.get (metrics w) k).
Proof.
  split.
  - intros E fuel pq d. apply _worker_loop_inv, metrics_inv_init.
  - intros E ev c t0 i w Hc. rewrite _finish_unfold. cbn [fst metrics].
    assert (Hp : forall k, k ∈ outcome_codes -> k <> "processed").
    { intros k Hk ->. unfold outcome_codes in Hk.
      repeat (apply elem_of_cons in Hk as [Hk|Hk]; [discriminate|]).
      by apply elem_of_nil in Hk. }
    split; [apply get_after_finish_processed; auto|].
    split; [apply get_after_finish_code; auto|].
    intros k Hk Hne. apply get_after_finish_other; auto.
Qed.

(** ** Exceptions that leave the worker loop *)

(** C9, at two inputs. A stored confirmed_at in another format makes
    [to_ts] raise inside the conditional update: the request that was
    popped is neither logged nor counted, and the loop is left. An urgent
    request in front of two requests for the same order, urgency and
    quantity, one with and one without a client name: the first [get]
    compares the two, [<] raises, no request is handled and the loop is
    left. *)
Theorem unguarded_exceptions_leave_the_worker_loop :
  (snd (_worker_loop env_in_window 1 [qty_request false 7 3 "req-1"]
          (world_with "confirmed" (Some "2024-01-01T12:00:00")))
   = Raise ValueError
   /\ logged_codes
        (trace (fst (_worker_loop env_in_window 1 [qty_request false 7 3 "req-1"]
                       (world_with "confirmed" (Some "2024-01-01T12:00:00")))))
      = []
   /\ Metrics.get
        (metrics (fst (_worker_loop env_in_window 1 [qty_request false 7 3 "req-1"]
                         (world_with "confirmed" (Some "2024-01-01T12:00:00")))))
        "processed" = 0)
  /\ (push_all ModEvent.lt [] [urgent_request; simulated_request; form_request]
      = Ok [urgent_request; simulated_request; form_request]
      /\ snd (_worker_loop env_in_window 3
                [urgent_request; simulated_request; form_request]
                (world_with "confirmed" confirmed_at_noon))
         = Raise TypeError
      /\ trace (fst (_worker_loop env_in_window 3
                       [urgent_request; simulated_request; form_request]
                       (world_with "confirmed" confirmed_at_noon)))
         = []).
Proof. vm_compute. repeat split; reflexivity. Qed.

(** ** The order on requests *)

Lemma atom_eqb_eq (x y : Atom) : atom_eqb x y = true <-> x = y.
Proof.
  destruct x, y; cbn; try (split; [discriminate|congruence]).
  - rewrite Z.eqb_eq. split; congruence.
  - rewrite String.eqb_eq. split; congruence.
  - split; reflexivity.
Qed.

Lemma atom_eqb_refl (x : Atom) : atom_eqb x x = true.
Proof. apply atom_eqb_eq. reflexivity. Qed.

Lemma atom_eqb_sym (x y : Atom) : atom_eqb x y = atom_eqb y x.
Proof.
  destruct (atom_eqb x y) eqn:H1, (atom_eqb y x) eqn:H2; try reflexivity.
  - apply atom_eqb_eq in H1. subst. rewrite atom_eqb_refl in H2. discriminate.
  - apply atom_eqb_eq in H2. subst. rewrite atom_eqb_refl in H1. discriminate.
Qed.

Lemma string_compare_refl (s : string) : String.compare s s = Eq.
Proof.
  pose proof (String.compare_antisym s s) as H.
  destruct (String.compare s s); [reflexivity|discriminate|discriminate].
Qed.

Lemma string_compare_trans (a : string) :
  forall b c, String.compare a b = Lt -> String.compare b c = Lt ->
              String.compare a c = Lt.
Proof.
  induction a as [|x a IH]; intros [|y b] [|z c]; cbn; try congruence.
  unfold Ascii.compare.
  destruct (N.compare_spec (N_of_ascii x) (N_of_ascii y)) as [Hxy|Hxy|Hxy];
    destruct (N.compare_spec (N_of_ascii y) (N_of_ascii z)) as [Hyz|Hyz|Hyz];
    try discriminate; intros H1 H2.
  - rewrite Hxy, Hyz, N.compare_refl. eauto.
  - rewrite Hxy. apply N.compare_lt_iff in Hyz. rewrite Hyz. reflexivity.
  - rewrite <- Hyz. apply N.compare_lt_iff in Hxy. rewrite Hxy. reflexivity.
  - assert (H : (N_of_ascii x < N_of_ascii z)%N) by lia.
    apply N.compare_lt_iff in H. rewrite H. reflexivity.
Qed.

Lemma string_ltb_Gt (a b : string) :
  String.eqb a b = false -> String.ltb a b = false -> String.compare b a = Lt.
Proof.
  intros Hne Hlt. apply String.eqb_neq in Hne. unfold String.ltb in Hlt.
  rewrite (String.compare_antisym b a).
  destruct (String.compare a b) eqn:Hc; [|discriminate|reflexivity].
  apply String.compare_eq_iff in Hc. contradiction.
Qed.

Lemma atom_lt_asym (x y : Atom) : atom_lt x y = Ok true -> atom_lt y x = Ok false.
Proof.
  destruct x as [a|a|], y as [b|b|]; cbn; try discriminate; intros H; f_equal;
    injection H as H.
  - apply Z.ltb_lt in H. apply Z.ltb_ge. lia.
  - unfold String.ltb in *. rewrite (String.compare_antisym b a).
    destruct (String.compare a b); [discriminate|reflexivity|discriminate].
Qed.

(** Two strict steps up make a strict step up. *)
Lemma atom_chain (xa xb xc : Atom) :
  atom_eqb xb xa = false -> atom_lt xb xa = Ok false ->
  atom_eqb xc xb = false -> atom_lt xc xb = Ok false ->
  atom_eqb xc xa = false /\ atom_lt xc xa = Ok false.
Proof.
  destruct xa as [a|a|], xb as [b|b|], xc as [c|c|]; cbn; try discriminate;
    intros E1 L1 E2 L2; injection L1 as L1; injection L2 as L2.
  - apply Z.eqb_neq in E1, E2. apply Z.ltb_ge in L1, L2.
    split; [apply Z.eqb_neq|f_equal; apply Z.ltb_ge]; lia.
  - pose proof (string_ltb_Gt _ _ E1 L1) as Hab.
    pose proof (string_ltb_Gt _ _ E2 L2) as Hbc.
    pose proof (string_compare_trans _ _ _ Hab Hbc) as Hac.
    split.
    + apply String.eqb_neq. intros ->. rewrite string_compare_refl in Hac. discriminate.
    + f_equal. unfold String.ltb. rewrite (String.compare_antisym c a), Hac. reflexivity.
Qed.

Lemma tuple_lt_irrefl (t : list Atom) : tuple_lt t t = Ok false.
Proof.
  induction t as [|x t IH]; [reflexivity|]. cbn. rewrite atom_eqb_refl. exact IH.
Qed.

Lemma tuple_lt_asym (t1 : list Atom) :
  forall t2, tuple_lt t1 t2 = Ok true -> tuple_lt t2 t1 = Ok false.
Proof.
  induction t1 as [|x t1 IH]; intros [|y t2]; cbn; try congruence.
  rewrite (atom_eqb_sym y x).
  destruct (atom_eqb x y); [apply IH|apply atom_lt_asym].
Qed.

(** "Not greater" is transitive wherever the third comparison is defined. *)
Lemma tuple_le_trans (a : list Atom) :
  forall b c r,
    tuple_lt b a = Ok false -> tuple_lt c b = Ok false ->
    tuple_lt c a = Ok r -> r = false.
Proof.
  induction a as [|xa a IH]; intros [|xb b] [|xc c] r; cbn; try congruence.
  destruct (atom_eqb xb xa) eqn:Eba.
  - apply atom_eqb_eq in Eba. subst xb.
    destruct (atom_eqb xc xa) eqn:Eca; [apply IH|congruence].
  - destruct (atom_eqb xc xb) eqn:Ecb.
    + apply atom_eqb_eq in Ecb. subst xc. rewrite Eba. congruence.
    + intros L1 L2. destruct (atom_chain _ _ _ Eba L1 Ecb L2) as [Eca Lca].
      rewrite Eca, Lca. congruence.
Qed.

(** What "not greater" says about the sort key: strictly higher priority,
    or the same priority and a quantity that is not larger. *)
Lemma lt_false_sort_index (a b : ModEvent.t) :
  ModEvent.lt b a = Ok false ->
  ModEvent.prio a < ModEvent.prio b
  \/ (ModEvent.prio a = ModEvent.prio b
      /\ ModEvent.effective_qty a <= ModEvent.effective_qty b).
Proof.
  unfold ModEvent.lt, ModEvent.astuple, ModEvent.sort_index. cbn [fst snd tuple_lt].
  cbn [atom_eqb atom_lt].
  destruct (ModEvent.prio b =? ModEvent.prio a) eqn:Hp.
  - apply Z.eqb_eq in Hp.
    destruct (ModEvent.effective_qty b =? ModEvent.effective_qty a) eqn:Hq.
    + apply Z.eqb_eq in Hq. intros _. right. lia.
    + intros H. injection H as H. apply Z.ltb_ge in H. right. lia.
  - apply Z.eqb_neq in Hp. intros H. injection H as H. apply Z.ltb_ge in H. left. lia.
Qed.

(** ** heapq keeps the heap invariant *)

Ltac Zify.zify_post_hook ::= Z.to_euclidean_division_equations.

Lemma parent_lt (i : nat) : (0 < i)%nat -> (parent i < i)%nat.
Proof. unfold parent. lia. Qed.

Lemma parent_child (c pos : nat) :
  (0 < c)%nat -> parent c = pos -> (c = 2 * pos + 1 \/ c = 2 * pos + 2)%nat.
Proof. unfold parent. lia. Qed.

Lemma child_parent (c pos : nat) :
  (c = 2 * pos + 1 \/ c = 2 * pos + 2)%nat -> (0 < c)%nat /\ parent c = pos.
Proof. unfold parent. lia. Qed.

Lemma insert_cons_perm {A} (l : list A) (i : nat) (a b : A) :
  l !! i = Some a -> a :: <[i:=b]> l ≡ₚ b :: l.
Proof.
  revert i. induction l as [|x l IH]; intros [|i] H; simplify_eq/=.
  - apply perm_swap.
  - rewrite perm_swap. rewrite (IH i H). apply perm_swap.
Qed.

(** Filling a hole at [j] after copying the item at [j] to [i] amounts to
    filling the hole at [i]. *)
Lemma insert_move_perm {A} (h : list A) (i j : nat) (x y : A) :
  h !! j = Some y -> i <> j -> (i < length h)%nat ->
  <[j:=x]> (<[i:=y]> h) ≡ₚ <[i:=x]> h.
Proof.
  intros Hj Hne Hi.
  destruct (lookup_lt_is_Some_2 h i Hi) as [z Hz].
  assert (H1 : y :: <[j:=x]> (<[i:=y]> h) ≡ₚ x :: <[i:=y]> h).
  { apply insert_cons_perm. rewrite list_lookup_insert_ne by done. exact Hj. }
  pose proof (insert_cons_perm h i z y Hz) as H2.
  pose proof (insert_cons_perm h i z x Hz) as H3.
  apply (Permutation_cons_inv (a := y)), (Permutation_cons_inv (a := z)).
  rewrite (perm_swap y z (<[i:=x]> h)), H3.
  rewrite H1, (perm_swap x z), H2. apply perm_swap.
Qed.

Section HeapqCorrect.
Context {A : Type}.
Variable lt : A -> A -> Res bool.
Variable dom : A -> Prop.

Hypothesis lt_defined : forall a b, dom a -> dom b -> exists r, lt a b = Ok r.
Hypothesis le_refl : forall a, dom a -> not_greater lt a a.
Hypothesis le_trans : forall a b c, dom a -> dom b -> dom c ->
  not_greater lt a b -> not_greater lt b c -> not_greater lt a c.
Hypothesis lt_le : forall a b, dom a -> dom b -> lt a b = Ok true -> not_greater lt a b.

Lemma heap_ok_fill (h : list A) (pos : nat) (v : A) :
  heap_but lt h pos -> above_children lt h pos v ->
  (forall p, (0 < pos)%nat -> h !! parent pos = Some p -> not_greater lt p v) ->
  heap_ok lt (<[pos:=v]> h).
Proof.
  intros Hbut Hch Hup i x p Hi Hx Hp.
  pose proof (parent_lt i Hi) as Hlt.
  apply list_lookup_insert_Some in Hx as [(-> & -> & _)|(Hne & Hx)].
  - rewrite list_lookup_insert_ne in Hp by lia. apply Hup; [lia|exact Hp].
  - apply list_lookup_insert_Some in Hp as [(Heq & -> & _)|(Hnp & Hp)].
    + apply (Hch i); auto.
    + apply (Hbut i); auto.
Qed.

Lemma siftdown_loop_ok (fuel : nat) :
  forall (h : list A) (newitem : A) (pos : nat),
  (pos < fuel)%nat -> (pos < length h)%nat -> Forall dom h -> dom newitem ->
  heap_but lt h pos -> above_children lt h pos newitem -> grandparent_ok lt h pos ->
  exists h', siftdown_loop lt fuel h newitem 0 pos = Ok h'
             /\ heap_ok lt h' /\ h' ≡ₚ <[pos:=newitem]> h.
Proof.
  induction fuel as [|fuel IH]; intros h newitem pos Hfuel Hlen Hdom Hnew Hbut Hch Hgp;
    [lia|].
  cbn [siftdown_loop]. destruct (0 <? pos)%nat eqn:Hpos.
  - apply Nat.ltb_lt in Hpos. fold (parent pos).
    pose proof (parent_lt pos Hpos) as Hplt.
    destruct (lookup_lt_is_Some_2 h (parent pos)) as [par Hpar]; [lia|].
    rewrite Hpar.
    assert (Hdpar : dom par) by (eapply Forall_lookup_1; eauto).
    destruct (lt_defined newitem par Hnew Hdpar) as [b Hb]. rewrite Hb.
    cbn [res_bind]. destruct b.
    + destruct (IH (<[pos:=par]> h) newitem (parent pos)) as (h' & Hrun & Hok & Hperm).
      * lia.
      * rewrite length_insert. lia.
      * apply Forall_insert; assumption.
      * assumption.
      * (* the edges away from the new hole *)
        intros i x p Hi Hne Hnp Hx Hp.
        apply list_lookup_insert_Some in Hx as [(-> & -> & _)|(Hne' & Hx)];
          [congruence|].
        apply list_lookup_insert_Some in Hp as [(Heq & -> & _)|(Hnp' & Hp)].
        -- apply (Hgp p Hpos Hpar i); auto.
        -- apply (Hbut i); auto.
      * (* the new item against the children of the new hole *)
        intros c x Hc Hpc Hx.
        apply list_lookup_insert_Some in Hx as [(-> & -> & _)|(Hne' & Hx)].
        -- apply lt_le; assumption.
        -- apply (le_trans newitem par x);
             [assumption|assumption|eapply Forall_lookup_1; eauto
             |apply lt_le; assumption|].
           apply (Hbut c); auto; rewrite ?Hpc; auto; lia.
      * (* the item above the new hole against those children *)
        intros g Hpp Hg c x Hc Hpc Hx.
        pose proof (parent_lt (parent pos) Hpp) as Hgl.
        rewrite list_lookup_insert_ne in Hg by lia.
        assert (Hgpar : not_greater lt g par).
        { apply (Hbut (parent pos)); auto; lia. }
        apply list_lookup_insert_Some in Hx as [(-> & -> & _)|(Hne' & Hx)]; [exact Hgpar|].
        apply (le_trans g par x);
          [eapply Forall_lookup_1; eauto|assumption|eapply Forall_lookup_1; eauto
          |exact Hgpar|].
        apply (Hbut c); auto; rewrite ?Hpc; auto; lia.
      * exists h'. split; [exact Hrun|]. split; [exact Hok|].
        rewrite Hperm. apply insert_move_perm; auto; lia.
    + eexists. split; [reflexivity|]. split; [|reflexivity].
      apply heap_ok_fill; auto.
      intros p _ Hp. rewrite Hpar in Hp. injection Hp as <-. exact Hb.
  - apply Nat.ltb_ge in Hpos.
    eexists. split; [reflexivity|]. split; [|reflexivity].
    apply heap_ok_fill; auto. intros p Hp. lia.
Qed.

Lemma siftup_loop_ok (fuel : nat) :
  forall (h : list A) (pos : nat),
  (length h <= fuel + pos)%nat -> (pos < length h)%nat -> Forall dom h ->
  heap_but lt h pos -> grandparent_ok lt h pos ->
  exists h' pos',
    siftup_loop lt fuel h pos = Ok (h', pos')
    /\ (pos' < length h')%nat /\ (length h' <= 2 * pos' + 1)%nat
    /\ Forall dom h' /\ heap_but lt h' pos'
    /\ forall v, <[pos':=v]> h' ≡ₚ <[pos:=v]> h.
Proof.
  induction fuel as [|fuel IH]; intros h pos Hfuel Hlen Hdom Hbut Hgp; [lia|].
  cbn [siftup_loop]. destruct (2 * pos + 1 <? length h)%nat eqn:Hchild.
  - apply Nat.ltb_lt in Hchild.
    (* the child that moves up is not greater than its sibling *)
    assert (Hpick : exists c x,
      (if (2 * pos + 1 + 1 <? length h)%nat then
         match h !! (2 * pos + 1)%nat, h !! (2 * pos + 1 + 1)%nat with
         | Some l, Some r =>
             res_bind (lt l r) (fun b => Ok (if b then 2 * pos + 1 else 2 * pos + 1 + 1)%nat)
         | _, _ => Raise IndexError
         end
       else Ok (2 * pos + 1)%nat) = Ok c
      /\ (c = 2 * pos + 1 \/ c = 2 * pos + 2)%nat
      /\ h !! c = Some x
      /\ forall s y, (s = 2 * pos + 1 \/ s = 2 * pos + 2)%nat -> h !! s = Some y ->
                     not_greater lt x y).
    { destruct (lookup_lt_is_Some_2 h (2 * pos + 1)%nat Hchild) as [l Hl].
      assert (Hdl : dom l) by (eapply Forall_lookup_1; eauto).
      destruct (2 * pos + 1 + 1 <? length h)%nat eqn:Hright.
      - apply Nat.ltb_lt in Hright.
        destruct (lookup_lt_is_Some_2 h (2 * pos + 1 + 1)%nat Hright) as [r Hr].
        assert (Hdr : dom r) by (eapply Forall_lookup_1; eauto).
        rewrite Hl, Hr. destruct (lt_defined l r Hdl Hdr) as [b Hb]. rewrite Hb.
        cbn [res_bind]. destruct b.
        + exists (2 * pos + 1)%nat, l. repeat split; auto.
          intros s y [->| ->] Hy.
          * rewrite Hl in Hy. injection Hy as <-. apply le_refl, Hdl.
          * replace (2 * pos + 2)%nat with (2 * pos + 1 + 1)%nat in Hy by lia.
            rewrite Hr in Hy. injection Hy as <-. apply lt_le; assumption.
        + exists (2 * pos + 1 + 1)%nat, r. repeat split; auto; [lia|].
          intros s y [->| ->] Hy.
          * rewrite Hl in Hy. injection Hy as <-. exact Hb.
          * replace (2 * pos + 2)%nat with (2 * pos + 1 + 1)%nat in Hy by lia.
            rewrite Hr in Hy. injection Hy as <-. apply le_refl, Hdr.
      - apply Nat.ltb_ge in Hright.
        exists (2 * pos + 1)%nat, l. repeat split; auto.
        intros s y [->| ->] Hy.
        + rewrite Hl in Hy. injection Hy as <-. apply le_refl, Hdl.
        + apply lookup_lt_Some in Hy. lia. }
    destruct Hpick as (c & x & -> & Hc & Hx & Hmin). cbn [res_bind]. rewrite Hx.
    destruct (child_parent c pos Hc) as [Hc0 Hpc].
    assert (Hdx : dom x) by (eapply Forall_lookup_1; eauto).
    assert (Hclen : (c < length h)%nat) by (eapply lookup_lt_Some; eauto).
    destruct (IH (<[pos:=x]> h) c) as (h' & pos' & Hrun & Hp' & Hleaf & Hdom' & Hbut' & Hperm).
    + rewrite length_insert. lia.
    + rewrite length_insert. lia.
    + apply Forall_insert; assumption.
    + intros i y p Hi Hne Hnp Hy Hp.
      pose proof (parent_lt i Hi) as Hlt.
      apply list_lookup_insert_Some in Hy as [(-> & -> & _)|(Hne' & Hy)].
      * rewrite list_lookup_insert_ne in Hp by lia.
        apply (Hgp p Hi Hp c); auto.
      * apply list_lookup_insert_Some in Hp as [(Heq & -> & _)|(Hnp' & Hp)].
        -- apply (Hmin i); auto. apply parent_child; auto.
        -- apply (Hbut i); auto.
    + intros g _ Hg d y Hd Hpd Hy.
      rewrite Hpc, list_lookup_insert_eq in Hg by lia. injection Hg as <-.
      pose proof (parent_lt d Hd) as Hlt.
      rewrite list_lookup_insert_ne in Hy by lia.
      apply (Hbut d); auto; rewrite ?Hpd; auto; lia.
    + exists h', pos'. repeat split; auto.
      intros v. rewrite Hperm. apply insert_move_perm; auto; lia.
  - apply Nat.ltb_ge in Hchild.
    exists h, pos. repeat split; auto.
Qed.

(** Nothing lies below a position without children. *)
Lemma above_children_leaf (h : list A) (pos : nat) (v : A) :
  (length h <= 2 * pos + 1)%nat -> above_children lt h pos v.
Proof.
  intros Hleaf c x Hc Hpc Hx. apply lookup_lt_Some in Hx.
  destruct (parent_child c pos Hc Hpc); lia.
Qed.

Lemma heap_but_insert (h : list A) (pos : nat) (v : A) :
  heap_but lt h pos -> heap_but lt (<[pos:=v]> h) pos.
Proof.
  intros Hbut i x p Hi Hne Hnp Hx Hp.
  rewrite list_lookup_insert_ne in Hx, Hp by auto. apply (Hbut i); auto.
Qed.

Lemma _siftup_ok (h : list A) :
  (0 < length h)%nat -> Forall dom h -> heap_but lt h 0 ->
  exists h', _siftup lt h 0 = Ok h' /\ heap_ok lt h' /\ h' ≡ₚ h.
Proof.
  intros Hlen Hdom Hbut. unfold _siftup.
  destruct (lookup_lt_is_Some_2 h 0 Hlen) as [newitem Hnew]. rewrite Hnew.
  assert (Hdn : dom newitem) by (eapply Forall_lookup_1; eauto).
  destruct (siftup_loop_ok (length h) h 0) as
    (h1 & pos1 & Hrun & Hp1 & Hleaf & Hdom1 & Hbut1 & Hperm); auto; [lia| |].
  { intros g Hg. lia. }
  rewrite Hrun. cbn [res_bind]. unfold _siftdown.
  rewrite list_lookup_insert_eq by exact Hp1.
  destruct (siftdown_loop_ok (S pos1) (<[pos1:=newitem]> h1) newitem pos1)
    as (h' & Hrun' & Hok & Hperm'); auto.
  - rewrite length_insert. exact Hp1.
  - apply Forall_insert; assumption.
  - apply heap_but_insert, Hbut1.
  - apply above_children_leaf. rewrite length_insert. exact Hleaf.
  - intros g _ _. apply above_children_leaf. rewrite length_insert. exact Hleaf.
  - exists h'. split; [exact Hrun'|]. split; [exact Hok|].
    rewrite Hperm', list_insert_insert_eq, Hperm.
    rewrite list_insert_id by exact Hnew. reflexivity.
Qed.

Lemma heappush_ok (h : list A) (x : A) :
  heap_ok lt h -> Forall dom h -> dom x ->
  exists h', heappush lt h x = Ok h' /\ heap_ok lt h' /\ h' ≡ₚ x :: h.
Proof.
  intros Hok Hdom Hx. unfold heappush, _siftdown.
  rewrite lookup_app_r, Nat.sub_diag by lia. cbn [lookup list_lookup].
  destruct (siftdown_loop_ok (S (length h)) (h ++ [x]) x (length h))
    as (h' & Hrun & Hok' & Hperm); auto.
  - rewrite length_app. cbn. lia.
  - apply Forall_app. split; [assumption|]. constructor; [assumption|constructor].
  - intros i y p Hi Hne Hnp Hy Hp.
    pose proof (parent_lt i Hi) as Hlt.
    assert (Hil : (i < length h)%nat).
    { apply lookup_lt_Some in Hy. rewrite length_app in Hy. cbn in Hy. lia. }
    rewrite lookup_app_l in Hy, Hp by lia. apply (Hok i); auto.
  - apply above_children_leaf. rewrite length_app. cbn. lia.
  - intros g _ _. apply above_children_leaf. rewrite length_app. cbn. lia.
  - exists h'. split; [exact Hrun|]. split; [exact Hok'|].
    rewrite Hperm. rewrite list_insert_id.
    + rewrite Permutation_app_comm. reflexivity.
    + rewrite lookup_app_r, Nat.sub_diag by lia. reflexivity.
Qed.

(** The root of a heap is not greater than any item in it. *)
Lemma root_min (h : list A) (r : A) :
  heap_ok lt h -> Forall dom h -> h !! 0%nat = Some r ->
  forall i x, h !! i = Some x -> not_greater lt r x.
Proof.
  intros Hok Hdom Hr i. induction i as [i IH] using lt_wf_ind. intros x Hx.
  destruct (Nat.eq_dec i 0%nat) as [->|Hi].
  - rewrite Hr in Hx. injection Hx as <-. apply le_refl. eapply Forall_lookup_1; eauto.
  - assert (H0 : (0 < i)%nat) by lia.
    pose proof (parent_lt i H0) as Hlt.
    destruct (lookup_lt_is_Some_2 h (parent i)) as [p Hp].
    { apply lookup_lt_Some in Hx. lia. }
    apply (le_trans r p x).
    + eapply Forall_lookup_1; [exact Hdom|exact Hr].
    + eapply Forall_lookup_1; [exact Hdom|exact Hp].
    + eapply Forall_lookup_1; [exact Hdom|exact Hx].
    + apply (IH (parent i)); auto.
    + apply (Hok i); auto.
Qed.

Lemma heappop_ok (h : list A) :
  heap_ok lt h -> Forall dom h -> h <> [] ->
  exists x h', heappop lt h = Ok (Some (x, h'))
               /\ heap_ok lt h' /\ h ≡ₚ x :: h'
               /\ forall y, y ∈ h -> not_greater lt x y.
Proof.
  intros Hok Hdom Hne. unfold heappop.
  destruct (last h) as [lastelt|] eqn:Hlast.
  2: { apply last_None in Hlast. contradiction. }
  apply last_Some in Hlast as [init ->].
  rewrite length_app. cbn [length]. rewrite Nat.add_sub, take_app_length.
  destruct init as [|returnitem rest].
  - exists lastelt, []. split; [reflexivity|]. split.
    + intros i x p Hi Hx. destruct i; discriminate.
    + split; [reflexivity|].
      intros y Hy. apply list_elem_of_singleton in Hy as ->.
      apply le_refl. eapply Forall_lookup_1 with (i := 0%nat); eauto.
  - assert (Hdl : Forall dom (lastelt :: rest)).
    { apply Forall_app in Hdom as [Hd1 Hd2]. inversion Hd1; subst.
      inversion Hd2; subst. constructor; assumption. }
    destruct (_siftup_ok (lastelt :: rest)) as (h' & Hrun & Hok' & Hperm).
    + cbn. lia.
    + exact Hdl.
    + intros i x p Hi Hne0 Hnp Hx Hp.
      pose proof (parent_lt i Hi) as Hlt.
      apply (Hok i); auto.
      * destruct i; [lia|]. cbn in Hx |- *. apply lookup_app_l_Some. exact Hx.
      * destruct (parent i) eqn:Hpi; [lia|]. cbn in Hp |- *.
        apply lookup_app_l_Some. exact Hp.
    + rewrite Hrun. cbn [res_bind]. exists returnitem, h'.
      split; [reflexivity|]. split; [exact Hok'|]. split.
      * rewrite Hperm. cbn. apply perm_skip.
        rewrite Permutation_app_comm. reflexivity.
      * intros y Hy. apply list_elem_of_lookup in Hy as [i Hi].
        apply (root_min _ returnitem Hok Hdom eq_refl i y Hi).
Qed.

Lemma push_all_ok (items : list A) :
  forall h, heap_ok lt h -> Forall dom h -> Forall dom items ->
  exists h', push_all lt h items = Ok h' /\ heap_ok lt h' /\ h' ≡ₚ items ++ h.
Proof.
  induction items as [|x items IH]; intros h Hok Hdom Hitems.
  - exists h. repeat split; auto.
  - inversion Hitems as [|? ? Hx Hrest]; subst. cbn [push_all].
    destruct (heappush_ok h x Hok Hdom Hx) as (h1 & Hrun & Hok1 & Hperm1).
    rewrite Hrun. cbn [res_bind].
    destruct (IH h1 Hok1) as (h' & Hrun' & Hok' & Hperm'); auto.
    { rewrite Hperm1. constructor; assumption. }
    exists h'. split; [exact Hrun'|]. split; [exact Hok'|].
    rewrite Hperm', Hperm1. cbn. symmetry. apply Permutation_middle.
Qed.

Lemma drain_ok (fuel : nat) :
  forall h, (length h <= fuel)%nat -> heap_ok lt h -> Forall dom h ->
  exists out, drain lt fuel h = Ok out /\ out ≡ₚ h
              /\ StronglySorted (not_greater lt) out.
Proof.
  induction fuel as [|fuel IH]; intros h Hlen Hok Hdom.
  - destruct h; [|cbn in Hlen; lia]. exists []. repeat split; auto. constructor.
  - cbn [drain]. destruct h as [|x0 h0] eqn:Hh.
    + exists []. repeat split; auto. constructor.
    + rewrite <- Hh in *.
      destruct (heappop_ok h Hok Hdom) as (x & h' & Hrun & Hok' & Hperm & Hmin);
        [rewrite Hh; discriminate|].
      rewrite Hrun. cbn [res_bind].
      assert (Hdom' : Forall dom h').
      { rewrite Hperm in Hdom. inversion Hdom; assumption. }
      destruct (IH h') as (out & Hrun' & Hperm' & Hsorted); auto.
      { apply Permutation_length in Hperm. cbn in Hperm. lia. }
      rewrite Hrun'. cbn [res_bind]. exists (x :: out).
      split; [reflexivity|]. split.
      * rewrite Hperm, Hperm'. reflexivity.
      * constructor; [exact Hsorted|].
        apply Forall_forall. intros y Hy. apply Hmin.
        rewrite Hperm. apply elem_of_cons. right. rewrite <- Hperm'. exact Hy.
Qed.
End HeapqCorrect.

Lemma StronglySorted_lookup {A} (R : A -> A -> Prop) (l : list A) :
  StronglySorted R l ->
  forall i j a b, (i < j)%nat -> l !! i = Some a -> l !! j = Some b -> R a b.
Proof.
  induction 1 as [|x l Hs IH Hall]; intros i j a b Hij Ha Hb; [destruct i; discriminate|].
  destruct j as [|j]; [lia|]. cbn in Hb.
  destruct i as [|i]; cbn in Ha.
  - injection Ha as <-. rewrite Forall_forall in Hall. apply Hall.
    apply list_elem_of_lookup. eauto.
  - apply (IH i j); auto. lia.
Qed.

Lemma comparable_defined (evs : list ModEvent.t) :
  comparable evs = true ->
  forall a b, a ∈ evs -> b ∈ evs -> exists r, ModEvent.lt a b = Ok r.
Proof.
  unfold comparable. rewrite forallb_forall. intros H a b Ha Hb.
  apply list_elem_of_In in Ha, Hb. specialize (H a Ha).
  rewrite forallb_forall in H. specialize (H b Hb).
  destruct (ModEvent.lt a b) as [r|e]; [eauto|discriminate].
Qed.

(** C5, as amended. Whenever the requests pushed can all be compared with
    one another, every push and every pop returns, and the requests come
    out as a rearrangement of those pushed in which a request is never
    followed by a smaller one under the order of the dataclass: an urgent
    request is never behind a non-urgent one, and among requests of equal
    urgency the quantity, taken as 9999 when it is missing or not positive,
    never decreases. *)
Theorem priority_queue_pops_in_key_order (evs : list ModEvent.t) :
  comparable evs = true ->
  exists h out,
    push_all ModEvent.lt [] evs = Ok h
    /\ drain ModEvent.lt (length evs) h = Ok out
    /\ out ≡ₚ evs
    /\ forall i j a b, (i < j)%nat -> out !! i = Some a -> out !! j = Some b ->
          ModEvent.lt b a = Ok false
          /\ (ModEvent.urgent b = true -> ModEvent.urgent a = true)
          /\ (ModEvent.urgent a = ModEvent.urgent b ->
               ModEvent.effective_qty a <= ModEvent.effective_qty b).
Proof.
  intros Hcmp.
  pose proof (comparable_defined evs Hcmp) as Hdef.
  set (dom := fun a : ModEvent.t => a ∈ evs).
  assert (Hrefl : forall a, dom a -> not_greater ModEvent.lt a a).
  { intros a _. apply tuple_lt_irrefl. }
  assert (Htrans : forall a b c, dom a -> dom b -> dom c ->
            not_greater ModEvent.lt a b -> not_greater ModEvent.lt b c ->
            not_greater ModEvent.lt a c).
  { intros a b c Ha Hb Hc Hab Hbc. unfold not_greater in *.
    destruct (Hdef c a Hc Ha) as [r Hr]. rewrite Hr. f_equal.
    exact (tuple_le_trans _ _ _ r Hab Hbc Hr). }
  assert (Hasym : forall a b, dom a -> dom b -> ModEvent.lt a b = Ok true ->
            not_greater ModEvent.lt a b).
  { intros a b _ _. apply tuple_lt_asym. }
  assert (Hall : Forall dom evs) by (apply Forall_forall; intros a Ha; exact Ha).
  destruct (push_all_ok ModEvent.lt dom Hdef Htrans Hasym evs [])
    as (h & Hpush & Hok & Hperm); auto.
  { intros i x p _ Hx. destruct i; discriminate. }
  rewrite app_nil_r in Hperm.
  destruct (drain_ok ModEvent.lt dom Hdef Hrefl Htrans Hasym (length evs) h)
    as (out & Hdrain & Hperm' & Hsorted); auto.
  { apply Permutation_length in Hperm. lia. }
  { rewrite Hperm. exact Hall. }
  exists h, out. split; [exact Hpush|]. split; [exact Hdrain|].
  split; [rewrite Hperm', Hperm; reflexivity|].
  intros i j a b Hij Ha Hb.
  pose proof (StronglySorted_lookup _ _ Hsorted i j a b Hij Ha Hb) as Hle.
  split; [exact Hle|].
  apply lt_false_sort_index in Hle. unfold ModEvent.prio in Hle.
  destruct (ModEvent.urgent a), (ModEvent.urgent b); split; intros; try lia; congruence.
Qed.

(** Two requests of equal urgency and quantity come out by order id, not in
    the order they were pushed; and a request without a quantity comes out
    before a request for 10000 units. *)
Lemma pops_are_not_in_insertion_order :
  (ModEvent.sort_index (qty_request false 2 1 "req-1")
   = ModEvent.sort_index (qty_request false 1 1 "req-2")
   /\ res_bind (push_all ModEvent.lt []
                  [qty_request false 2 1 "req-1"; qty_request false 1 1 "req-2"])
               (drain ModEvent.lt 2)
      = Ok [qty_request false 1 1 "req-2"; qty_request false 2 1 "req-1"])
  /\ (res_bind (push_all ModEvent.lt []
                  [qty_request false 7 10000 "req-3";
                   ModEvent.mk false 7 None (Some "hawaiana") None None None "req-4"
                     "2024-01-01 12:01:00"])
               (drain ModEvent.lt 2)
      = Ok [ModEvent.mk false 7 None (Some "hawaiana") None None None "req-4"
              "2024-01-01 12:01:00";
            qty_request false 7 10000 "req-3"]).
Proof. vm_compute. repeat split; reflexivity. Qed.

(** ** The properties at concrete requests *)

Lemma linear_clock_after (start step ts bound : Q) (k : nat) :
  (0 <= step)%Q -> (bound < start - ts)%Q ->
  (bound < linear_clock start step k - ts)%Q.
Proof.
  intros Hstep Hstart. unfold linear_clock.
  assert (Hk : (0 <= inject_Z (Z.of_nat k))%Q).
  { change 0%Q with (inject_Z 0). rewrite <- Zle_Qle. lia. }
  pose proof (Qmult_le_0_compat _ _ Hk Hstep) as Hprod. lra.
Qed.

(** Order 7, five minutes and one second after its confirmation. *)
Lemma expired_request_yields_TIME_EXPIRED_witness :
  db (fst (process_event env_expired (qty_request false 7 3 "req-1")
             (world_with "confirmed" confirmed_at_noon)))
  = sample_db 7 "confirmed" confirmed_at_noon
  /\ Metrics.get
       (metrics (fst (process_event env_expired (qty_request false 7 3 "req-1")
                        (world_with "confirmed" confirmed_at_noon))))
       "TIME_EXPIRED" = 1.
Proof.
  destruct (expired_request_yields_TIME_EXPIRED env_expired
              (qty_request false 7 3 "req-1")
              (world_with "confirmed" confirmed_at_noon)
              (sample_order 7 "confirmed" confirmed_at_noon)
              "2024-01-01 12:00:00" (inject_Z noon))
    as (Hdb & _ & Hexp & _).
  - reflexivity.
  - reflexivity.
  - discriminate.
  - vm_compute. reflexivity.
  - intros k _. apply linear_clock_after; vm_compute; [discriminate|reflexivity].
  - reflexivity.
  - split; [exact Hdb|]. rewrite Hexp. reflexivity.
Defined.

(** Order 7 in its window, with a kitchen display that raises: the client
    is still notified, the outcome is SYNC_FAIL and the row is updated. *)
Lemma notifications_follow_successful_update_witness :
  exists before row latency,
    new_events (world_with "confirmed" confirmed_at_noon)
      (fst (process_event env_kitchen_down (qty_request false 7 3 "req-1")
              (world_with "confirmed" confirmed_at_noon)))
    = before ++
      [ EApply 7 (qty_changes 3) (Ok true);
        EKitchen 7 (qty_changes 3);
        EClient 7 (qty_changes 3);
        ELog (log_record (qty_request false 7 3 "req-1") "SYNC_FAIL" latency
                (mkInfo None (Some (qty_changes 3))));
        EMetrics (metrics (fst (process_event env_kitchen_down
                                  (qty_request false 7 3 "req-1")
                                  (world_with "confirmed" confirmed_at_noon)))) ]
    /\ forallb quiet before = true
    /\ sample_db 7 "confirmed" confirmed_at_noon !! 7 = Some row
    /\ db (fst (process_event env_kitchen_down (qty_request false 7 3 "req-1")
                  (world_with "confirmed" confirmed_at_noon)))
       = <[7 := update_row (qty_changes 3) row]> (sample_db 7 "confirmed" confirmed_at_noon).
Proof.
  apply (notifications_follow_successful_update env_kitchen_down
           (qty_request false 7 3 "req-1") (world_with "confirmed" confirmed_at_noon)).
  vm_compute. apply elem_of_cons. left. reflexivity.
Defined.


(** Two requests through the loop, and one request finished with MOD_OK. *)
Lemma processed_is_sum_of_outcomes_witness :
  metrics_inv
    (metrics (fst (_worker_loop env_in_window 2
                     [qty_request true 7 3 "req-1"; qty_request false 7 4 "req-2"]
                     (init_world (sample_db 7 "confirmed" confirmed_at_noon)))))
  /\ Metrics.get
       (metrics (fst (_finish env_in_window (qty_request true 7 3 "req-1") "MOD_OK"
                        (inject_Z noon) no_info
                        (world_with "confirmed" confirmed_at_noon))))
       "processed" = 1.
Proof.
  destruct processed_is_sum_of_outcomes as [Hinv Hstep]. split.
  - apply Hinv.
  - destruct (Hstep env_in_window (qty_request true 7 3 "req-1") "MOD_OK"
                (inject_Z noon) no_info (world_with "confirmed" confirmed_at_noon))
      as (Hp & _ & _).
    + unfold outcome_codes. list_mem.
    + rewrite Hp. reflexivity.
Defined.

(** Four requests for a quantity only, two of them urgent. *)
Lemma priority_queue_pops_in_key_order_witness :
  exists h out,
    push_all ModEvent.lt []
      [qty_request false 7 4 "req-1"; qty_request true 9 5 "req-2";
       qty_request false 7 2 "req-3"; qty_request true 9 1 "req-4"] = Ok h
    /\ drain ModEvent.lt 4 h = Ok out
    /\ out ≡ₚ [qty_request false 7 4 "req-1"; qty_request true 9 5 "req-2";
               qty_request false 7 2 "req-3"; qty_request true 9 1 "req-4"]
    /\ forall i j a b, (i < j)%nat -> out !! i = Some a -> out !! j = Some b ->
          ModEvent.lt b a = Ok false
          /\ (ModEvent.urgent b = true -> ModEvent.urgent a = true)
          /\ (ModEvent.urgent a = ModEvent.urgent b ->
               ModEvent.effective_qty a <= ModEvent.effective_qty b).
Proof.
  apply (priority_queue_pops_in_key_order
           [qty_request false 7 4 "req-1"; qty_request true 9 5 "req-2";
            qty_request false 7 2 "req-3"; qty_request true 9 1 "req-4"]).
  vm_compute. reflexivity.
Defined.

(** * Further properties of the service *)

(** ** Requests that are applied, and requests for orders that cannot be *)

Lemma apply_modification_atomic_accepts (E : Env) (oid : Z) (ch : Changes.t)
    (w : World) (row : Order.t) (s : string) (ts : Q) :
  db w !! oid = Some row ->
  Order.confirmed_at row = Some s -> s <> EmptyString ->
  strptime E s = Some ts ->
  (clock E (ticks w) - ts <= EDIT_WINDOW_SECONDS)%Q ->
  locked_state (Order.state row) = false ->
  Changes.is_empty ch = false ->
  binds ch = true ->
  check_qty ch = true ->
  apply_modification_atomic E oid ch w =
  (mkWorld (<[oid := update_row ch row]> (db w)) (S (ticks w)) (metrics w)
     (trace w ++ [EApply oid ch (Ok true)]), Ok true).
Proof.
  intros Hrow Hconf Hs Hparse Hnow Hstate Hch Hbind Hqty.
  rewrite apply_modification_atomic_unfold, apply_modification_body_unfold.
  rewrite Hrow, Hconf, (truthy_Some s Hs), (to_ts_Some E s ts Hs Hparse).
  cbn [negb]. cbn zeta. apply Qgtb_false in Hnow.
  rewrite Hnow, Hstate, Hch, Hbind, Hqty.
  reflexivity.
Qed.

Lemma update_row_idem (ch : Changes.t) (row : Order.t) :
  update_row ch (update_row ch row) = update_row ch row.
Proof.
  unfold update_row. cbn.
  destruct (Changes.client_name ch), (Changes.product ch), (Changes.size ch),
    (Changes.qty ch), (Changes.payment_method ch); reflexivity.
Qed.

(** X1. A request that passes the local checks and changes at least one
    field, with an order id and a quantity (if any) that fit a signed
    64-bit integer, for an order that is not locked and whose window is
    still open at the reading the update takes, with both displays working:
    one update, which writes the row, then the kitchen and the client are
    told, and the request is logged and counted as MOD_OK. *)
Theorem accepted_request_is_applied_at_first_attempt
    (E : Env) (ev : ModEvent.t) (w : World) (row : Order.t) (s : string) (ts : Q) :
  db w !! ModEvent.order_id ev = Some row ->
  Order.confirmed_at row = Some s -> s <> EmptyString ->
  strptime E s = Some ts ->
  (clock E (1 + ticks w) - ts <= EDIT_WINDOW_SECONDS)%Q ->
  locked_state (Order.state row) = false ->
  locally_valid ev = true ->
  Changes.is_empty (build_changes ev) = false ->
  bindable ev = true ->
  kitchen_ui_append E (ModEvent.order_id ev) (build_changes ev) = Ok tt ->
  client_ui_append E (ModEvent.order_id ev) (build_changes ev) = Ok tt ->
  db (fst (process_event E ev w))
  = <[ModEvent.order_id ev := update_row (build_changes ev) row]> (db w)
  /\ new_events w (fst (process_event E ev w)) =
       [ EApply (ModEvent.order_id ev) (build_changes ev) (Ok true);
         EKitchen (ModEvent.order_id ev) (build_changes ev);
         EClient (ModEvent.order_id ev) (build_changes ev);
         ELog (log_record ev "MOD_OK"
                 ((clock E (2 + ticks w) - clock E (ticks w)) * inject_Z 1000)%Q
                 (mkInfo None (Some (build_changes ev))));
         EMetrics (metrics (fst (process_event E ev w))) ]
  /\ Metrics.get (metrics (fst (process_event E ev w))) "MOD_OK"
     = Metrics.get (metrics w) "MOD_OK" + 1.
Proof.
  intros Hrow Hconf Hs Hparse Hnow Hstate Hvalid Hch Hbind Hk Hc.
  apply andb_true_iff in Hbind as [_ Hbind].
  destruct (locally_valid_true ev Hvalid) as (Hp & Hz & Hy).
  rewrite process_event_cases. cbn zeta. rewrite Hp, Hz, Hy.
  unfold MAX_RETRIES. rewrite retry_loop_step.
  rewrite (apply_modification_atomic_accepts E _ _ (tick w) row s ts); auto;
    [|apply build_changes_check_qty].
  cbn [applied loop_info no_info reason]. rewrite Hk, Hc. cbn [is_ok andb].
  rewrite _finish_unfold.
  cbn [fst db ticks metrics trace tick add_events].
  split; [reflexivity|]. split.
  - apply new_events_app. rewrite <- !app_assoc. reflexivity.
  - apply get_after_finish_code. discriminate.
Qed.

Lemma accepted_request_is_applied_at_first_attempt_witness :
  Order.qty <$>
    (db (fst (process_event env_in_window (qty_request false 7 3 "req-1")
                (world_with "confirmed" confirmed_at_noon))) !! 7) = Some 3
  /\ Metrics.get
       (metrics (fst (process_event env_in_window (qty_request false 7 3 "req-1")
                        (world_with "confirmed" confirmed_at_noon)))) "MOD_OK" = 1.
Proof.
  destruct (accepted_request_is_applied_at_first_attempt env_in_window
              (qty_request false 7 3 "req-1")
              (world_with "confirmed" confirmed_at_noon)
              (sample_order 7 "confirmed" confirmed_at_noon)
              "2024-01-01 12:00:00" (inject_Z noon))
    as (Hdb & _ & Hcount);
    [reflexivity|reflexivity|discriminate|reflexivity|vm_compute; discriminate
    |reflexivity|reflexivity|reflexivity|reflexivity|reflexivity|reflexivity|].
  rewrite Hdb, Hcount. split; reflexivity.
Defined.

Lemma apply_modification_atomic_missing (E : Env) (oid : Z) (ch : Changes.t) (w : World) :
  match db w !! oid with
  | None => True
  | Some row => truthy (Order.confirmed_at row) = false
  end ->
  in_int64 oid = true ->
  apply_modification_atomic E oid ch w
  = (add_events w [EApply oid ch (Ok false)], Ok false).
Proof.
  intros Hrow Hid.
  rewrite apply_modification_atomic_unfold, apply_modification_body_unfold.
  destruct (db w !! oid) as [row|]; [rewrite Hrow|rewrite Hid]; reflexivity.
Qed.

(** X2. A request that passes the local checks, with an order id that fits
    a signed 64-bit integer, for an order that is not in the table or that
    has no confirmed_at: one update, which returns false, one read, no
    sleep, and the request is logged as MOD_FAIL with the reason
    not_found_or_unconfirmed; the table is unchanged. *)
Theorem missing_or_unconfirmed_order_fails_at_once
    (E : Env) (ev : ModEvent.t) (w : World) :
  match db w !! ModEvent.order_id ev with
  | None => True
  | Some row => truthy (Order.confirmed_at row) = false
  end ->
  in_int64 (ModEvent.order_id ev) = true ->
  locally_valid ev = true ->
  db (fst (process_event E ev w)) = db w
  /\ new_events w (fst (process_event E ev w)) =
       [ EApply (ModEvent.order_id ev) (build_changes ev) (Ok false);
         EFetch (ModEvent.order_id ev);
         ELog (log_record ev "MOD_FAIL"
                 ((clock E (1 + ticks w) - clock E (ticks w)) * inject_Z 1000)%Q
                 (mkInfo (Some "not_found_or_unconfirmed") None));
         EMetrics (metrics (fst (process_event E ev w))) ]
  /\ Metrics.get (metrics (fst (process_event E ev w))) "MOD_FAIL"
     = Metrics.get (metrics w) "MOD_FAIL" + 1.
Proof.
  intros Hrow Hid Hvalid.
  destruct (locally_valid_true ev Hvalid) as (Hp & Hz & Hy).
  rewrite process_event_cases. cbn zeta. rewrite Hp, Hz, Hy.
  unfold MAX_RETRIES. rewrite retry_loop_step.
  rewrite (apply_modification_atomic_missing E _ _ (tick w)) by assumption.
  cbn zeta. cbn [db tick add_events].
  assert (Hfin : forall w2,
    w2 = add_events (tick w)
           [EApply (ModEvent.order_id ev) (build_changes ev) (Ok false);
            EFetch (ModEvent.order_id ev)] ->
    db (fst (_finish E ev "MOD_FAIL" (clock E (ticks w))
               (mkInfo (Some "not_found_or_unconfirmed") None) w2)) = db w
    /\ new_events w (fst (_finish E ev "MOD_FAIL" (clock E (ticks w))
                            (mkInfo (Some "not_found_or_unconfirmed") None) w2)) =
         [ EApply (ModEvent.order_id ev) (build_changes ev) (Ok false);
           EFetch (ModEvent.order_id ev);
           ELog (log_record ev "MOD_FAIL"
                   ((clock E (1 + ticks w) - clock E (ticks w)) * inject_Z 1000)%Q
                   (mkInfo (Some "not_found_or_unconfirmed") None));
           EMetrics (metrics (fst (_finish E ev "MOD_FAIL" (clock E (ticks w))
                                     (mkInfo (Some "not_found_or_unconfirmed") None)
                                     w2))) ]
    /\ Metrics.get (metrics (fst (_finish E ev "MOD_FAIL" (clock E (ticks w))
                                    (mkInfo (Some "not_found_or_unconfirmed") None)
                                    w2))) "MOD_FAIL"
       = Metrics.get (metrics w) "MOD_FAIL" + 1).
  { intros w2 ->. rewrite _finish_unfold.
    cbn [fst db ticks metrics trace tick add_events].
    split; [reflexivity|]. split.
    - apply new_events_app. rewrite <- !app_assoc. reflexivity.
    - apply get_after_finish_code. discriminate. }
  revert Hrow. destruct (db w !! ModEvent.order_id ev) as [row|]; intros Hrow.
  - rewrite Hrow. cbn [negb applied loop_code loop_info].
    rewrite bool_decide_eq_false_2 by discriminate.
    apply Hfin. unfold add_events, tick. cbn. rewrite <- app_assoc. reflexivity.
  - rewrite Hid. cbn [negb applied loop_code loop_info].
    rewrite bool_decide_eq_false_2 by discriminate.
    apply Hfin. unfold add_events, tick. cbn. rewrite <- app_assoc. reflexivity.
Qed.

Lemma missing_or_unconfirmed_order_fails_at_once_witness :
  logged_codes
    (new_events (world_with "draft" None)
       (fst (process_event env_in_window (qty_request false 7 3 "req-1")
               (world_with "draft" None)))) = ["MOD_FAIL"]
  /\ logged_codes
       (new_events (world_with "confirmed" confirmed_at_noon)
          (fst (process_event env_in_window (qty_request false 8 3 "req-2")
                  (world_with "confirmed" confirmed_at_noon)))) = ["MOD_FAIL"].
Proof.
  split.
  - destruct (missing_or_unconfirmed_order_fails_at_once env_in_window
                (qty_request false 7 3 "req-1") (world_with "draft" None))
      as (_ & Hev & _); [reflexivity|reflexivity|reflexivity|].
    rewrite Hev. reflexivity.
  - destruct (missing_or_unconfirmed_order_fails_at_once env_in_window
                (qty_request false 8 3 "req-2")
                (world_with "confirmed" confirmed_at_noon))
      as (_ & Hev & _); [reflexivity|reflexivity|reflexivity|].
    rewrite Hev. reflexivity.
Defined.

(** X3. An order id and a change set with a quantity (if any) that fit a
    signed 64-bit integer, the quantity passing the check of the column,
    for an order that can be edited: the update succeeds, sending the same change set again while
    the window is still open succeeds again, and the second update leaves
    the table exactly as the first one left it. *)
Theorem repeated_update_succeeds_and_changes_nothing
    (E : Env) (oid : Z) (ch : Changes.t) (w : World) (row : Order.t)
    (s : string) (ts : Q) :
  db w !! oid = Some row ->
  Order.confirmed_at row = Some s -> s <> EmptyString ->
  strptime E s = Some ts ->
  (clock E (ticks w) - ts <= EDIT_WINDOW_SECONDS)%Q ->
  (clock E (1 + ticks w) - ts <= EDIT_WINDOW_SECONDS)%Q ->
  locked_state (Order.state row) = false ->
  Changes.is_empty ch = false ->
  in_int64 oid = true ->
  binds ch = true ->
  check_qty ch = true ->
  snd (apply_modification_atomic E oid ch w) = Ok true
  /\ snd (apply_modification_atomic E oid ch
            (fst (apply_modification_atomic E oid ch w))) = Ok true
  /\ db (fst (apply_modification_atomic E oid ch
                (fst (apply_modification_atomic E oid ch w))))
     = db (fst (apply_modification_atomic E oid ch w)).
Proof.
  intros Hrow Hconf Hs Hparse Hnow1 Hnow2 Hstate Hch Hid Hbind Hqty.
  rewrite (apply_modification_atomic_accepts E oid ch w row s ts) by assumption.
  cbn [fst snd].
  rewrite (apply_modification_atomic_accepts E oid ch _ (update_row ch row) s ts);
    auto.
  - cbn [fst snd db]. rewrite update_row_idem, insert_insert_eq. auto.
  - cbn [db]. apply lookup_insert_eq.
Qed.

Lemma repeated_update_succeeds_and_changes_nothing_witness :
  snd (apply_modification_atomic env_in_window 7 (qty_changes 3)
         (fst (apply_modification_atomic env_in_window 7 (qty_changes 3)
                 (world_with "confirmed" confirmed_at_noon)))) = Ok true.
Proof.
  destruct (repeated_update_succeeds_and_changes_nothing env_in_window 7
              (qty_changes 3) (world_with "confirmed" confirmed_at_noon)
              (sample_order 7 "confirmed" confirmed_at_noon)
              "2024-01-01 12:00:00" (inject_Z noon))
    as (_ & H & _);
    [reflexivity|reflexivity|discriminate|reflexivity
    |vm_compute; discriminate|vm_compute; discriminate
    |reflexivity|reflexivity|reflexivity|reflexivity|reflexivity|].
  exact H.
Defined.

(** ** The shape of an iteration *)

Lemma new_events_refl (w : World) : new_events w w = [].
Proof. unfold new_events. apply drop_all. Qed.

Lemma new_events_trans (w w1 w2 : World) (d1 d2 : list Effect) :
  trace w1 = trace w ++ d1 -> trace w2 = trace w1 ++ d2 ->
  new_events w w2 = d1 ++ d2.
Proof.
  intros H1 H2. apply new_events_app. rewrite H2, H1, app_assoc. reflexivity.
Qed.

Lemma retry_loop_extends (E : Env) (oid : Z) (ch : Changes.t) (n : nat) (backoff : Q)
    (c : string) (i : Info) (w : World) :
  trace (fst (retry_loop E n oid ch backoff c i w))
  = trace w ++ new_events w (fst (retry_loop E n oid ch backoff c i w)).
Proof.
  destruct (retry_loop_spec E oid ch n backoff c i w) as (delta & Ht & _).
  rewrite (new_events_app _ _ _ Ht). exact Ht.
Qed.

Lemma sleeps_app (l1 l2 : list Effect) : sleeps (l1 ++ l2) = sleeps l1 ++ sleeps l2.
Proof. apply omap_app. Qed.

Lemma apply_results_app (l1 l2 : list Effect) :
  apply_results (l1 ++ l2) = apply_results l1 ++ apply_results l2.
Proof. apply omap_app. Qed.

Lemma logged_codes_app (l1 l2 : list Effect) :
  logged_codes (l1 ++ l2) = logged_codes l1 ++ logged_codes l2.
Proof. apply omap_app. Qed.

Lemma logged_ids_app (l1 l2 : list Effect) :
  logged_ids (l1 ++ l2) = logged_ids l1 ++ logged_ids l2.
Proof. apply omap_app. Qed.

(** The trace of the retry loop: attempts that are retried, with the
    delays of the doubling schedule, then at most one attempt that ends the
    loop. *)
Lemma retry_loop_trace (E : Env) (oid : Z) (ch : Changes.t) (n : nat) :
  forall (backoff : Q) (c : string) (i : Info) (w : World),
  exists k tail,
    new_events w (fst (retry_loop E n oid ch backoff c i w))
    = concat (map (retried_attempt oid ch) (take k (backoff_schedule n backoff)))
      ++ tail
    /\ ((k = n /\ tail = []) \/ ((k < n)%nat /\ final_attempt oid ch tail)).
Proof.
  induction n as [|n IH]; intros backoff c i w.
  - exists 0%nat, []. cbn [retry_loop ret fst]. rewrite new_events_refl. auto.
  - rewrite retry_loop_step.
    destruct (apply_modification_atomic_cases E oid ch w) as (_ & Ht & _ & _).
    destruct (apply_modification_atomic E oid ch w) as [w1 r1].
    cbn [fst snd] in Ht.
    assert (Hstop : forall w', trace w' = trace w1 ++ [EFetch oid] ->
      r1 = Ok false ->
      exists k tail,
        new_events w w'
        = concat (map (retried_attempt oid ch)
                    (take k (backoff_schedule (S n) backoff))) ++ tail
        /\ ((k = S n /\ tail = [])
            \/ ((k < S n)%nat /\ final_attempt oid ch tail))).
    { intros w' Hw' ->. rewrite (new_events_trans _ _ _ _ _ Ht Hw').
      exists 0%nat, [EApply oid ch (Ok false); EFetch oid].
      split; [reflexivity|]. right. split; [lia|]. right. left. reflexivity. }
    destruct r1 as [[|]|e].
    + exists 0%nat, [EApply oid ch (Ok true)]. cbn [fst].
      rewrite (new_events_app _ _ _ Ht).
      split; [reflexivity|]. right. split; [lia|]. left. reflexivity.
    + cbn zeta.
      destruct (db w1 !! oid) as [cur|];
        [|destruct (in_int64 oid); apply Hstop; reflexivity].
      destruct (negb (truthy (Order.confirmed_at cur))); [apply Hstop; reflexivity|].
      destruct (to_ts E (Order.confirmed_at cur)) as [[ts|]|e];
        [|apply Hstop; reflexivity|apply Hstop; reflexivity].
      destruct (Qgtb _ _); [apply Hstop; reflexivity|].
      set (w3 := add_events (tick (add_events w1 [EFetch oid])) [ESleep backoff]).
      destruct (IH (backoff * inject_Z 2)%Q c i w3) as (k & tail & Hk & Hend).
      assert (Hw3 : trace w3 = trace w ++ retried_attempt oid ch backoff).
      { unfold w3, retried_attempt. cbn. rewrite Ht, <- !app_assoc. reflexivity. }
      rewrite (new_events_trans _ _ _ _ _ Hw3 (retry_loop_extends _ _ _ _ _ _ _ _)).
      rewrite Hk. exists (S k), tail. split.
      * cbn [backoff_schedule take map concat]. rewrite <- app_assoc. reflexivity.
      * destruct Hend as [[-> ->]|[Hlt Hfin]]; [left; auto|right; split; [lia|exact Hfin]].
    + exists 0%nat, [EApply oid ch (Raise e)]. cbn [fst].
      rewrite (new_events_app _ _ _ Ht).
      split; [reflexivity|]. right. split; [lia|]. right. right. eauto.
Qed.

(** With a stored timestamp that parses, an order id and a quantity that
    can be bound, and a quantity the table accepts, the retry loop
    returns. *)
Lemma retry_loop_returns (E : Env) (oid : Z) (ch : Changes.t) (n : nat) :
  forall (backoff : Q) (c : string) (i : Info) (w : World),
  timestamp_parses E w oid -> in_int64 oid = true -> binds ch = true ->
  check_qty ch = true ->
  is_ok (snd (retry_loop E n oid ch backoff c i w)) = true.
Proof.
  induction n as [|n IH]; intros backoff c i w Hts Hid Hbind Hqty; [reflexivity|].
  rewrite retry_loop_step.
  destruct (apply_modification_atomic_cases E oid ch w) as (_ & _ & _ & Hdb).
  destruct (apply_modification_atomic_returns E oid ch w Hts Hid Hbind Hqty)
    as [Hres _].
  destruct (apply_modification_atomic E oid ch w) as [w1 r1].
  cbn [fst snd] in *. subst r1.
  destruct (negb (rejects E w oid ch)); [reflexivity|].
  cbn zeta. destruct Hdb as [Hdb _]. rewrite Hdb.
  destruct (db w !! oid) as [cur|] eqn:Hcur; [|rewrite Hid; reflexivity].
  destruct (negb (truthy (Order.confirmed_at cur))); [reflexivity|].
  destruct (Hts cur Hcur) as [ts Hparse]. rewrite Hparse.
  destruct ts as [ts|]; [|reflexivity].
  destruct (Qgtb _ _); [reflexivity|].
  apply IH; auto.
  intros row Hrow. cbn in Hrow. rewrite Hdb in Hrow. apply Hts. exact Hrow.
Qed.

(** What one iteration adds to the trace and leaves in the world: either
    the local checks reject the request, or the retry loop runs and, unless
    it raises, the request is finished after the two notifications of a
    successful update. *)
Lemma process_event_structure (E : Env) (ev : ModEvent.t) (w : World) :
  exists delta,
    trace (fst (process_event E ev w)) = trace w ++ delta
    /\ ((locally_valid ev = false
         /\ db (fst (process_event E ev w)) = db w
         /\ exists why lat,
              delta = [ELog (log_record ev "MOD_FAIL" lat (mkInfo (Some why) None));
                       EMetrics (metrics (fst (process_event E ev w)))]
              /\ metrics (fst (process_event E ev w))
                 = after_finish (metrics w) "MOD_FAIL" lat
              /\ snd (process_event E ev w)
                 = ui_metrics_update E (metrics (fst (process_event E ev w))))
        \/ (locally_valid ev = true
            /\ db (fst (process_event E ev w))
               = db (fst (retry_loop E MAX_RETRIES (ModEvent.order_id ev)
                            (build_changes ev) INITIAL_BACKOFF_S "MOD_FAIL" no_info
                            (tick w)))
            /\ match snd (retry_loop E MAX_RETRIES (ModEvent.order_id ev)
                            (build_changes ev) INITIAL_BACKOFF_S "MOD_FAIL" no_info
                            (tick w)) with
               | Raise e =>
                   delta = new_events (tick w)
                             (fst (retry_loop E MAX_RETRIES (ModEvent.order_id ev)
                                     (build_changes ev) INITIAL_BACKOFF_S "MOD_FAIL"
                                     no_info (tick w)))
                   /\ metrics (fst (process_event E ev w)) = metrics w
                   /\ snd (process_event E ev w) = Raise e
               | Ok out =>
                   exists c lat i,
                     c ∈ outcome_codes
                     /\ metrics (fst (process_event E ev w))
                        = after_finish (metrics w) c lat
                     /\ snd (process_event E ev w)
                        = ui_metrics_update E (metrics (fst (process_event E ev w)))
                     /\ delta =
                          new_events (tick w)
                            (fst (retry_loop E MAX_RETRIES (ModEvent.order_id ev)
                                    (build_changes ev) INITIAL_BACKOFF_S "MOD_FAIL"
                                    no_info (tick w)))
                          ++ (if applied out
                              then [EKitchen (ModEvent.order_id ev) (build_changes ev);
                                    EClient (ModEvent.order_id ev) (build_changes ev)]
                              else [])
                          ++ [ELog (log_record ev c lat i);
                              EMetrics (metrics (fst (process_event E ev w)))]
               end)).
Proof.
  rewrite process_event_cases. cbn zeta. unfold locally_valid.
  assert (Hbad : forall why,
    exists delta,
      trace (fst (_finish E ev "MOD_FAIL" (clock E (ticks w))
                    (mkInfo (Some why) None) (tick w))) = trace w ++ delta
      /\ db (fst (_finish E ev "MOD_FAIL" (clock E (ticks w))
                    (mkInfo (Some why) None) (tick w))) = db w
      /\ exists why' lat,
           delta = [ELog (log_record ev "MOD_FAIL" lat (mkInfo (Some why') None));
                    EMetrics (metrics (fst (_finish E ev "MOD_FAIL" (clock E (ticks w))
                                              (mkInfo (Some why) None) (tick w))))]
           /\ metrics (fst (_finish E ev "MOD_FAIL" (clock E (ticks w))
                              (mkInfo (Some why) None) (tick w)))
              = after_finish (metrics w) "MOD_FAIL" lat
           /\ snd (_finish E ev "MOD_FAIL" (clock E (ticks w))
                     (mkInfo (Some why) None) (tick w))
              = ui_metrics_update E
                  (metrics (fst (_finish E ev "MOD_FAIL" (clock E (ticks w))
                                   (mkInfo (Some why) None) (tick w))))).
  { intros why. rewrite _finish_unfold. cbn [fst snd db metrics trace tick].
    eexists. split; [reflexivity|]. split; [reflexivity|].
    exists why. eexists. repeat split. }
  destruct (present_invalid (Changes.product _) _).
  { destruct (Hbad "invalid_product") as (delta & Ht & Hrest).
    exists delta. split; [exact Ht|]. left. split; [reflexivity|exact Hrest]. }
  destruct (present_invalid (Changes.size _) _).
  { destruct (Hbad "invalid_size") as (delta & Ht & Hrest).
    exists delta. split; [exact Ht|]. left. split; [reflexivity|exact Hrest]. }
  destruct (present_invalid (Changes.payment_method _) _).
  { destruct (Hbad "invalid_payment") as (delta & Ht & Hrest).
    exists delta. split; [exact Ht|]. left. split; [reflexivity|exact Hrest]. }
  clear Hbad.
  pose proof (retry_loop_extends E (ModEvent.order_id ev) (build_changes ev)
                MAX_RETRIES INITIAL_BACKOFF_S "MOD_FAIL" no_info (tick w)) as Hext.
  destruct (retry_loop_spec E (ModEvent.order_id ev) (build_changes ev) MAX_RETRIES
              INITIAL_BACKOFF_S "MOD_FAIL" no_info (tick w))
    as (d0 & _ & Hm & _ & Hres).
  set (d := new_events (tick w) _) in *. clearbody d.
  destruct (retry_loop E MAX_RETRIES (ModEvent.order_id ev) (build_changes ev)
              INITIAL_BACKOFF_S "MOD_FAIL" no_info (tick w)) as [w2 [out|e]];
    cbn [fst snd trace metrics tick] in *.
  - rewrite !_finish_unfold.
    destruct (applied out) eqn:Happ; cbn [fst snd db metrics trace add_events ticks negb].
    + eexists. split; [rewrite Hext, <- !app_assoc; reflexivity|].
      right. split; [reflexivity|]. split; [reflexivity|].
      eexists. eexists. eexists. rewrite Hm.
      split; [|split; [reflexivity|split; reflexivity]].
      destruct (_ && _); unfold outcome_codes; list_mem.
    + eexists. split; [rewrite Hext, <- !app_assoc; reflexivity|].
      right. split; [reflexivity|]. split; [reflexivity|].
      eexists. eexists. eexists. rewrite Hm.
      split; [|split; [reflexivity|split; reflexivity]].
      destruct (bool_decide _) eqn:Hb.
      * apply bool_decide_eq_true_1 in Hb. rewrite Hb. unfold outcome_codes; list_mem.
      * unfold outcome_codes; list_mem.
  - exists d. split; [exact Hext|]. right.
    split; [reflexivity|]. split; [reflexivity|]. auto.
Qed.

Lemma retry_loop_no_logs (E : Env) (oid : Z) (ch : Changes.t) (n : nat) (backoff : Q)
    (c : string) (i : Info) (w : World) :
  logged_codes (new_events w (fst (retry_loop E n oid ch backoff c i w))) = []
  /\ logged_ids (new_events w (fst (retry_loop E n oid ch backoff c i w))) = [].
Proof.
  assert (Hq : forall l, forallb quiet l = true -> logged_ids l = []).
  { induction l as [|e l IH]; [reflexivity|].
    cbn [forallb]. rewrite andb_true_iff. intros [He Hl].
    unfold logged_ids in *. cbn [omap]. destruct e; try discriminate; cbn; auto. }
  destruct (retry_loop_spec E oid ch n backoff c i w) as (delta & Ht & _ & _ & Hres).
  rewrite (new_events_app _ _ _ Ht).
  destruct (snd (retry_loop E n oid ch backoff c i w)) as [out|e].
  - destruct (applied out).
    + destruct Hres as (d' & row & -> & Hquiet & _).
      rewrite logged_codes_app, logged_ids_app, (quiet_logged_codes d' Hquiet),
        (Hq d' Hquiet). split; reflexivity.
    + destruct Hres as (Hquiet & _). split; [apply quiet_logged_codes|apply Hq]; exact Hquiet.
  - destruct Hres as (Hquiet & _). split; [apply quiet_logged_codes|apply Hq]; exact Hquiet.
Qed.

(** An iteration logs the request once, under one of the four codes, and
    counts it; or the retry loop raised and nothing was logged or counted. *)
Lemma process_event_log (E : Env) (ev : ModEvent.t) (w : World) :
  exists delta,
    trace (fst (process_event E ev w)) = trace w ++ delta
    /\ ((exists c lat,
           c ∈ outcome_codes
           /\ logged_codes delta = [c]
           /\ logged_ids delta = [ModEvent.req_id ev]
           /\ metrics (fst (process_event E ev w)) = after_finish (metrics w) c lat
           /\ snd (process_event E ev w)
              = ui_metrics_update E (metrics (fst (process_event E ev w))))
        \/ (exists e,
              snd (retry_loop E MAX_RETRIES (ModEvent.order_id ev) (build_changes ev)
                     INITIAL_BACKOFF_S "MOD_FAIL" no_info (tick w)) = Raise e
              /\ snd (process_event E ev w) = Raise e
              /\ logged_codes delta = []
              /\ logged_ids delta = []
              /\ metrics (fst (process_event E ev w)) = metrics w)).
Proof.
  destruct (process_event_structure E ev w) as (delta & Ht & Hcase).
  exists delta. split; [exact Ht|].
  destruct Hcase as [(_ & _ & why & lat & -> & Hm & Hr)|(_ & _ & Hloop)].
  - left. exists "MOD_FAIL", lat. repeat split; auto. unfold outcome_codes; list_mem.
  - destruct (retry_loop_no_logs E (ModEvent.order_id ev) (build_changes ev) MAX_RETRIES
                INITIAL_BACKOFF_S "MOD_FAIL" no_info (tick w)) as [Hc Hi].
    destruct (snd (retry_loop E MAX_RETRIES _ _ _ _ _ _)) as [out|e].
    + destruct Hloop as (c & lat & i & Hin & Hm & Hr & ->).
      left. exists c, lat.
      rewrite !logged_codes_app, !logged_ids_app, Hc, Hi.
      repeat split; auto; destruct (applied out); reflexivity.
    + destruct Hloop as (-> & Hm & Hr). right. exists e. auto.
Qed.

Lemma process_event_db (E : Env) (ev : ModEvent.t) (w : World) :
  db (fst (process_event E ev w)) = db w
  \/ (locally_valid ev = true
      /\ exists row,
           db w !! ModEvent.order_id ev = Some row
           /\ db (fst (process_event E ev w))
              = <[ModEvent.order_id ev := update_row (build_changes ev) row]> (db w)).
Proof.
  destruct (process_event_structure E ev w) as (delta & _ & Hcase).
  destruct Hcase as [(_ & Hdb & _)|(Hvalid & Hdb & _)]; [left; exact Hdb|].
  rewrite Hdb.
  destruct (retry_loop_spec E (ModEvent.order_id ev) (build_changes ev) MAX_RETRIES
              INITIAL_BACKOFF_S "MOD_FAIL" no_info (tick w)) as (d & _ & _ & _ & Hres).
  destruct (snd (retry_loop E MAX_RETRIES _ _ _ _ _ _)) as [out|e].
  - destruct (applied out).
    + destruct Hres as (_ & row & _ & _ & Hrow & Hdb' & _).
      right. split; [exact Hvalid|]. exists row. split; [exact Hrow|exact Hdb'].
    + destruct Hres as (_ & Hdb' & _). left. exact Hdb'.
  - destruct Hres as (_ & Hdb' & _). left. exact Hdb'.
Qed.

(** ** Retries are bounded *)

(** X4. Whatever the request, the table and the clock, the trace of one
    iteration of the worker is: some attempts that are retried, each one an
    update that returns false, a read of the order and a sleep, the sleeps
    being the first ones of the schedule 0.25 s, 0.5 s, 1 s in that order;
    then, only if fewer than MAX_RETRIES attempts were retried, at most one
    attempt that ends the loop; then effects that neither touch the store
    nor sleep. So there are at most MAX_RETRIES updates, and a sleep follows
    every retried attempt, the last one included. *)
Theorem retries_are_bounded_and_back_off (E : Env) (ev : ModEvent.t) (w : World) :
  exists k tail rest,
    new_events w (fst (process_event E ev w))
    = concat (map (retried_attempt (ModEvent.order_id ev) (build_changes ev))
                (take k (backoff_schedule MAX_RETRIES INITIAL_BACKOFF_S)))
      ++ tail ++ rest
    /\ ((tail = [] /\ (k = MAX_RETRIES \/ (k = 0%nat /\ locally_valid ev = false)))
        \/ ((k < MAX_RETRIES)%nat
            /\ final_attempt (ModEvent.order_id ev) (build_changes ev) tail))
    /\ forallb after_retries rest = true
    /\ Forall2 Qeq (backoff_schedule MAX_RETRIES INITIAL_BACKOFF_S)
         [(1 # 4)%Q; (1 # 2)%Q; inject_Z 1].
Proof.
  assert (Hsched : Forall2 Qeq (backoff_schedule MAX_RETRIES INITIAL_BACKOFF_S)
                     [(1 # 4)%Q; (1 # 2)%Q; inject_Z 1]).
  { vm_compute. repeat constructor. }
  destruct (process_event_structure E ev w) as (delta & Ht & Hcase).
  rewrite (new_events_app _ _ _ Ht).
  destruct Hcase as [(Hinv & _ & why & lat & -> & _)|(_ & _ & Hloop)].
  - exists 0%nat, []. eexists. split; [reflexivity|]. split; [auto|].
    split; [reflexivity|exact Hsched].
  - destruct (retry_loop_trace E (ModEvent.order_id ev) (build_changes ev) MAX_RETRIES
                INITIAL_BACKOFF_S "MOD_FAIL" no_info (tick w)) as (k & tail & Hk & Hend).
    set (d := new_events (tick w) _) in *. clearbody d. subst d.
    assert (Hend' :
      (tail = [] /\ (k = MAX_RETRIES \/ (k = 0%nat /\ locally_valid ev = false)))
      \/ ((k < MAX_RETRIES)%nat
          /\ final_attempt (ModEvent.order_id ev) (build_changes ev) tail)).
    { destruct Hend as [[-> ->]|Hfin]; [left; auto|right; exact Hfin]. }
    destruct (snd (retry_loop E MAX_RETRIES _ _ _ _ _ _)) as [out|e].
    + destruct Hloop as (c & lat & i & _ & _ & _ & ->).
      exists k, tail. eexists. rewrite <- !app_assoc.
      split; [reflexivity|]. split; [exact Hend'|]. split; [|exact Hsched].
      destruct (applied out); reflexivity.
    + destruct Hloop as (-> & _). exists k, tail, [].
      rewrite app_nil_r. split; [reflexivity|]. split; [exact Hend'|].
      split; [reflexivity|exact Hsched].
Qed.

(** ** What the worker leaves alone *)

Lemma lifecycle_update_row (ch : Changes.t) (row : Order.t) :
  lifecycle (update_row ch row) = lifecycle row.
Proof. reflexivity. Qed.

Lemma process_event_lifecycle (E : Env) (ev : ModEvent.t) (w : World) (oid : Z) :
  lifecycle <$> (db (fst (process_event E ev w)) !! oid) = lifecycle <$> (db w !! oid).
Proof.
  destruct (process_event_db E ev w) as [->|(_ & row & Hrow & ->)]; [reflexivity|].
  destruct (decide (ModEvent.order_id ev = oid)) as [<-|Hne].
  - rewrite lookup_insert_eq, Hrow. reflexivity.
  - rewrite lookup_insert_ne by exact Hne. reflexivity.
Qed.

(** X5. After any number of iterations of the worker loop, on any queue,
    the table has the same order ids, and every order has the id, state,
    created_at and confirmed_at it had: the worker creates, deletes,
    confirms or cancels nothing. *)
Theorem worker_keeps_lifecycle_columns (E : Env) (fuel : nat) :
  forall (pq : list ModEvent.t) (w : World) (oid : Z),
  lifecycle <$> (db (fst (_worker_loop E fuel pq w)) !! oid)
  = lifecycle <$> (db w !! oid).
Proof.
  induction fuel as [|fuel IH]; intros pq w oid; [reflexivity|].
  cbn [_worker_loop]. unfold bind at 1, lift at 1.
  destruct (heappop ModEvent.lt pq) as [[[ev pq']|]|e]; try reflexivity.
  destruct (ModEvent.order_id ev =? SENTINEL_ORDER_ID); [reflexivity|].
  unfold bind at 1.
  pose proof (process_event_lifecycle E ev w oid) as Hstep.
  destruct (process_event E ev w) as [w1 [[]|e]]; cbn [fst] in *.
  - rewrite IH. exact Hstep.
  - exact Hstep.
Qed.

Lemma update_row_valid (ev : ModEvent.t) (row : Order.t) :
  locally_valid ev = true -> row_valid row ->
  row_valid (update_row (build_changes ev) row).
Proof.
  intros Hvalid (Hp & Hs & Hy & Hq).
  destruct (locally_valid_true ev Hvalid) as (Hvp & Hvs & Hvy).
  assert (Hfield : forall (v : option string) (old : string) (valid : list string),
            present_invalid v valid = false -> old ∈ valid -> default old v ∈ valid).
  { intros [s|] old valid Hv Hold; [|exact Hold]. cbn in *.
    apply negb_false_iff, bool_decide_eq_true_1 in Hv. exact Hv. }
  unfold row_valid, update_row. cbn [Order.product Order.size Order.payment_method Order.qty].
  repeat split; auto.
  cbn [build_changes Changes.qty].
  destruct (ModEvent.new_qty ev) as [q|]; [|exact Hq].
  destruct (0 <? q) eqn:H0; [apply Z.ltb_lt in H0; exact H0|exact Hq].
Qed.

(** X6. If every row of the table has its product, size and payment method
    in their closed sets and a positive quantity, so has every row after
    any number of iterations of the worker loop, on any queue. *)
Theorem worker_keeps_rows_valid (E : Env) (fuel : nat) :
  forall (pq : list ModEvent.t) (w : World),
  (forall oid row, db w !! oid = Some row -> row_valid row) ->
  forall oid row,
    db (fst (_worker_loop E fuel pq w)) !! oid = Some row -> row_valid row.
Proof.
  induction fuel as [|fuel IH]; intros pq w Hw; [exact Hw|].
  cbn [_worker_loop]. unfold bind at 1, lift at 1.
  destruct (heappop ModEvent.lt pq) as [[[ev pq']|]|e]; try exact Hw.
  destruct (ModEvent.order_id ev =? SENTINEL_ORDER_ID); [exact Hw|].
  unfold bind at 1.
  assert (Hstep : forall oid row,
            db (fst (process_event E ev w)) !! oid = Some row -> row_valid row).
  { destruct (process_event_db E ev w) as [->|(Hvalid & old & Hold & ->)]; [exact Hw|].
    intros oid row. destruct (decide (ModEvent.order_id ev = oid)) as [<-|Hne].
    - rewrite lookup_insert_eq. intros [= <-].
      apply update_row_valid; [exact Hvalid|]. exact (Hw _ _ Hold).
    - rewrite lookup_insert_ne by exact Hne. apply Hw. }
  destruct (process_event E ev w) as [w1 [[]|e]]; cbn [fst] in *.
  - apply IH. exact Hstep.
  - exact Hstep.
Qed.

Lemma worker_keeps_rows_valid_witness :
  match db (fst (_worker_loop env_in_window 2
                   [qty_request true 7 3 "req-1"; qty_request false 7 4 "req-2"]
                   (world_with "confirmed" confirmed_at_noon))) !! 7 with
  | Some row => row_valid row
  | None => True
  end.
Proof.
  assert (Hin : forall oid row,
            db (world_with "confirmed" confirmed_at_noon) !! oid = Some row ->
            row_valid row).
  { intros oid row Hrow. destruct (decide (oid = 7)) as [->|Hne].
    - vm_compute in Hrow. injection Hrow as <-.
      unfold row_valid. cbn. repeat split; list_mem.
    - unfold world_with, init_world, sample_db in Hrow. cbn [db] in Hrow.
      rewrite lookup_insert_ne in Hrow by congruence. rewrite lookup_empty in Hrow.
      discriminate. }
  pose proof (worker_keeps_rows_valid env_in_window 2
                [qty_request true 7 3 "req-1"; qty_request false 7 4 "req-2"]
                (world_with "confirmed" confirmed_at_noon) Hin 7) as H.
  destruct (db _ !! 7) as [row|]; [exact (H row eq_refl)|exact I].
Defined.

(** ** Counters and log *)





(** ** Requests that are always finished *)

(** X8. When the order id and the quantity of the request fit a signed
    64-bit integer, the stored confirmed_at of the order, if it has one, is
    in the timestamp format and the metrics observer does not raise, an
    iteration of the worker ends without an exception and logs the request
    exactly once, under its own id and one of the four codes. *)
Theorem request_is_finished_exactly_once (E : Env) (ev : ModEvent.t) (w : World) :
  bindable ev = true ->
  timestamp_parses E w (ModEvent.order_id ev) ->
  (forall m, ui_metrics_update E m = Ok tt) ->
  snd (process_event E ev w) = Ok tt
  /\ logged_ids (new_events w (fst (process_event E ev w))) = [ModEvent.req_id ev]
  /\ exists c,
       c ∈ outcome_codes
       /\ logged_codes (new_events w (fst (process_event E ev w))) = [c].
Proof.
  intros Hbind Hts Hobs. apply andb_true_iff in Hbind as [Hid Hbind].
  destruct (process_event_log E ev w) as (delta & Ht & Hcase).
  rewrite (new_events_app _ _ _ Ht).
  destruct Hcase as [(c & lat & Hc & Hd & Hi & _ & Hr)|(e & Hloop & _)].
  - rewrite Hr, Hobs. split; [reflexivity|]. split; [exact Hi|]. exists c. auto.
  - pose proof (retry_loop_returns E (ModEvent.order_id ev) (build_changes ev)
                  MAX_RETRIES INITIAL_BACKOFF_S "MOD_FAIL" no_info (tick w)
                  Hts Hid Hbind (build_changes_check_qty ev)) as Hret.
    rewrite Hloop in Hret. discriminate Hret.
Qed.

Lemma request_is_finished_exactly_once_witness :
  snd (process_event env_in_window (qty_request false 7 3 "req-1")
         (world_with "cooking" confirmed_at_noon)) = Ok tt
  /\ logged_ids
       (new_events (world_with "cooking" confirmed_at_noon)
          (fst (process_event env_in_window (qty_request false 7 3 "req-1")
                  (world_with "cooking" confirmed_at_noon)))) = ["req-1"].
Proof.
  destruct (request_is_finished_exactly_once env_in_window
              (qty_request false 7 3 "req-1") (world_with "cooking" confirmed_at_noon))
    as (Hr & Hi & _).
  - reflexivity.
  - intros row Hrow. vm_compute in Hrow. injection Hrow as <-.
    eexists. vm_compute. reflexivity.
  - intros m. reflexivity.
  - split; [exact Hr|exact Hi].
Defined.

(** ** The queue between producers and worker *)

(** On requests that can all be compared, the order of the dataclass is a
    total preorder. *)
Lemma comparable_order (evs : list ModEvent.t) :
  comparable evs = true ->
  (forall a b, a ∈ evs -> b ∈ evs -> exists r, ModEvent.lt a b = Ok r)
  /\ (forall a, a ∈ evs -> not_greater ModEvent.lt a a)
  /\ (forall a b c, a ∈ evs -> b ∈ evs -> c ∈ evs ->
        not_greater ModEvent.lt a b -> not_greater ModEvent.lt b c ->
        not_greater ModEvent.lt a c)
  /\ (forall a b, a ∈ evs -> b ∈ evs -> ModEvent.lt a b = Ok true ->
        not_greater ModEvent.lt a b).
Proof.
  intros Hcmp. pose proof (comparable_defined evs Hcmp) as Hdef.
  split; [exact Hdef|]. split; [|split].
  - intros a _. apply tuple_lt_irrefl.
  - intros a b c Ha Hb Hc Hab Hbc. unfold not_greater in *.
    destruct (Hdef c a Hc Ha) as [r Hr]. rewrite Hr. f_equal.
    exact (tuple_le_trans _ _ _ r Hab Hbc Hr).
  - intros a b _ _. apply tuple_lt_asym.
Qed.

Lemma comparable_sublist (evs sub : list ModEvent.t) :
  comparable evs = true -> sub ⊆ evs -> comparable sub = true.
Proof.
  unfold comparable. rewrite !forallb_forall. intros H Hsub a Ha.
  rewrite forallb_forall. intros b Hb.
  apply list_elem_of_In, Hsub, list_elem_of_In in Ha, Hb.
  specialize (H a Ha). rewrite forallb_forall in H. exact (H b Hb).
Qed.

(** X9. For any interleaving of producers putting requests and the worker
    getting them, as long as the requests put can all be compared with one
    another: no operation raises, and every request a get returns is not
    greater, in the order of the dataclass, than any request it leaves in
    the queue. *)
Theorem get_returns_a_least_request (ops : list QueueOp) :
  comparable (puts ops) = true ->
  exists out,
    run_ops [] ops = Ok out
    /\ Forall (fun r => forall y, y ∈ snd r -> ModEvent.lt y (fst r) = Ok false) out.
Proof.
  intros Hcmp.
  destruct (comparable_order _ Hcmp) as (Hdef & Hrefl & Htrans & Hasym).
  set (dom := fun a : ModEvent.t => a ∈ puts ops) in *.
  assert (Hgen : forall ops' pq,
            puts ops' ⊆ puts ops -> heap_ok ModEvent.lt pq -> Forall dom pq ->
            exists out,
              run_ops pq ops' = Ok out
              /\ Forall (fun r => forall y, y ∈ snd r -> ModEvent.lt y (fst r) = Ok false)
                   out).
  { induction ops' as [|[ev|] ops' IH]; intros pq Hsub Hok Hdom.
    - exists []. split; [reflexivity|constructor].
    - cbn [run_ops]. unfold enqueue.
      assert (Hev : dom ev) by (apply Hsub; cbn; apply elem_of_cons; left; reflexivity).
      destruct (heappush_ok ModEvent.lt dom Hdef Htrans Hasym pq ev Hok Hdom Hev)
        as (pq' & Hrun & Hok' & Hperm).
      rewrite Hrun. cbn [res_bind]. apply IH; auto.
      + intros x Hx. apply Hsub. cbn. apply elem_of_cons. right. exact Hx.
      + rewrite Hperm. constructor; assumption.
    - cbn [run_ops].
      destruct pq as [|x0 pq0] eqn:Hpq.
      + cbn [heappop last res_bind]. apply IH; auto.
      + rewrite <- Hpq in *.
        destruct (heappop_ok ModEvent.lt dom Hdef Hrefl Htrans Hasym pq Hok Hdom)
          as (x & pq' & Hrun & Hok' & Hperm & Hmin); [rewrite Hpq; discriminate|].
        rewrite Hrun. cbn [res_bind].
        assert (Hdom' : Forall dom pq').
        { rewrite Hperm in Hdom. inversion Hdom; assumption. }
        destruct (IH pq') as (out & Hout & Hall); auto.
        rewrite Hout. cbn [res_bind]. exists ((x, pq') :: out).
        split; [reflexivity|]. constructor; [|exact Hall].
        cbn [fst snd]. intros y Hy. apply Hmin. rewrite Hperm.
        apply elem_of_cons. right. exact Hy. }
  apply Hgen; [reflexivity| |constructor].
  intros i x p _ Hx. destruct i; discriminate.
Qed.

Lemma get_returns_a_least_request_witness :
  exists out,
    run_ops []
      [Put (qty_request false 7 4 "req-1"); Put (qty_request true 9 5 "req-2"); Get;
       Put (qty_request false 7 2 "req-3"); Get; Get] = Ok out
    /\ Forall (fun r => forall y, y ∈ snd r -> ModEvent.lt y (fst r) = Ok false) out.
Proof.
  apply (get_returns_a_least_request
           [Put (qty_request false 7 4 "req-1"); Put (qty_request true 9 5 "req-2"); Get;
            Put (qty_request false 7 2 "req-3"); Get; Get]).
  vm_compute. reflexivity.
Defined.

(** ** Requests that fill in the same fields *)

Lemma tuple_lt_same_kind (t1 : list Atom) :
  forall t2, Forall2 (fun x y => same_kind x y = true) t1 t2 ->
             exists r, tuple_lt t1 t2 = Ok r.
Proof.
  induction t1 as [|x t1 IH]; intros t2 H; inversion H as [|? y ? t2' Hxy Hrest]; subst.
  - eexists. reflexivity.
  - cbn [tuple_lt]. destruct (atom_eqb x y) eqn:Heq; [apply IH, Hrest|].
    destruct x, y; try discriminate; cbn; eauto.
Qed.

Lemma same_kind_opt_str (a b : option string) :
  given a = given b -> same_kind (opt_str a) (opt_str b) = true.
Proof. destruct a, b; cbn; congruence. Qed.

Lemma same_kind_opt_int (a b : option Z) :
  given a = given b -> same_kind (opt_int a) (opt_int b) = true.
Proof. destruct a, b; cbn; congruence. Qed.

Lemma same_shape_defined (a b : ModEvent.t) :
  shape a = shape b -> exists r, ModEvent.lt a b = Ok r.
Proof.
  unfold shape. intros [= H1 H2 H3 H4 H5].
  apply tuple_lt_same_kind. unfold ModEvent.astuple.
  repeat constructor;
    first [apply same_kind_opt_str; assumption | apply same_kind_opt_int; assumption].
Qed.

(** X10. Requests that fill in the same optional fields can always be
    compared: a queue that only ever holds such requests, as the batches of
    the simulation button are, never raises on a put or a get, and gives
    back every request that was put. *)
Theorem same_shape_requests_never_raise (evs : list ModEvent.t) (s : list bool) :
  Forall (fun ev => shape ev = s) evs ->
  exists h out,
    push_all ModEvent.lt [] evs = Ok h
    /\ drain ModEvent.lt (length evs) h = Ok out
    /\ out ≡ₚ evs.
Proof.
  intros Hshape.
  assert (Hcmp : comparable evs = true).
  { unfold comparable. rewrite forallb_forall. intros a Ha.
    rewrite forallb_forall. intros b Hb.
    rewrite Forall_forall in Hshape. apply list_elem_of_In in Ha, Hb.
    destruct (same_shape_defined a b) as [r Hr];
      [rewrite (Hshape a Ha), (Hshape b Hb); reflexivity|].
    rewrite Hr. reflexivity. }
  destruct (comparable_order _ Hcmp) as (Hdef & Hrefl & Htrans & Hasym).
  assert (Hall : Forall (fun a => a ∈ evs) evs) by (apply Forall_forall; auto).
  destruct (push_all_ok ModEvent.lt (fun a => a ∈ evs) Hdef Htrans Hasym evs [])
    as (h & Hpush & Hok & Hperm); auto.
  { intros i x p _ Hx. destruct i; discriminate. }
  rewrite app_nil_r in Hperm.
  destruct (drain_ok ModEvent.lt (fun a => a ∈ evs) Hdef Hrefl Htrans Hasym
              (length evs) h) as (out & Hdrain & Hperm' & _); auto.
  { apply Permutation_length in Hperm. lia. }
  { rewrite Hperm. exact Hall. }
  exists h, out. split; [exact Hpush|]. split; [exact Hdrain|].
  rewrite Hperm', Hperm. reflexivity.
Qed.

Lemma same_shape_requests_never_raise_witness :
  exists h out,
    push_all ModEvent.lt []
      [simulated_event false 7 2 "mediana" "pepperoni" "req-1" "2024-01-01 12:01:00";
       simulated_event false 7 2 "mediana" "hawaiana" "req-2" "2024-01-01 12:01:00";
       simulated_event true 7 4 "grande" "pepperoni" "req-3" "2024-01-01 12:01:00"]
    = Ok h
    /\ drain ModEvent.lt 3 h = Ok out
    /\ out ≡ₚ
       [simulated_event false 7 2 "mediana" "pepperoni" "req-1" "2024-01-01 12:01:00";
        simulated_event false 7 2 "mediana" "hawaiana" "req-2" "2024-01-01 12:01:00";
        simulated_event true 7 4 "grande" "pepperoni" "req-3" "2024-01-01 12:01:00"].
Proof.
  apply (same_shape_requests_never_raise
           [simulated_event false 7 2 "mediana" "pepperoni" "req-1" "2024-01-01 12:01:00";
            simulated_event false 7 2 "mediana" "hawaiana" "req-2" "2024-01-01 12:01:00";
            simulated_event true 7 4 "grande" "pepperoni" "req-3" "2024-01-01 12:01:00"]
           [false; true; true; true; false]).
  repeat constructor.
Defined.

(** ** The stop signal *)

Lemma stop_signal_defined (req_id requested_at : string) (ev : ModEvent.t) :
  0 <= ModEvent.order_id ev ->
  exists r, ModEvent.lt (stop_signal req_id requested_at) ev = Ok r.
Proof.
  intros Hid. unfold ModEvent.lt, ModEvent.astuple.
  change (fst (ModEvent.sort_index (stop_signal req_id requested_at))) with 1.
  change (snd (ModEvent.sort_index (stop_signal req_id requested_at))) with 9999.
  change (Z.b2z (ModEvent.urgent (stop_signal req_id requested_at))) with 0.
  change (ModEvent.order_id (stop_signal req_id requested_at)) with (-1).
  change (fst (ModEvent.sort_index ev)) with (ModEvent.prio ev).
  change (snd (ModEvent.sort_index ev)) with (ModEvent.effective_qty ev).
  cbn [tuple_lt atom_eqb atom_lt]. unfold ModEvent.prio.
  destruct (ModEvent.urgent ev); cbn [Z.b2z orb andb negb];
    repeat match goal with
           | |- context [(?a =? ?b)] => destruct (Z.eqb_spec a b); try lia
           | |- context [(?a <? ?b)] => destruct (Z.ltb_spec a b); try lia
           | |- context [(?a <=? ?b)] => destruct (Z.leb_spec a b); try lia
           end;
    eexists; reflexivity.
Qed.

(** X11. Against a request for a real order (an id that is not negative),
    the stop signal compares without raising: the request is ahead of the
    signal exactly when it is urgent or asks for fewer than 9999 units, and
    behind it exactly when it is not urgent and its quantity is missing,
    not positive, or at least 9999. Requests of the second kind that are
    queued when the signal is put are the ones the worker never gets to. *)
Theorem stop_signal_position (req_id requested_at : string) (ev : ModEvent.t) :
  0 <= ModEvent.order_id ev ->
  ModEvent.lt ev (stop_signal req_id requested_at)
  = Ok (ModEvent.urgent ev || (ModEvent.effective_qty ev <? 9999))
  /\ ModEvent.lt (stop_signal req_id requested_at) ev
     = Ok (negb (ModEvent.urgent ev) && (9999 <=? ModEvent.effective_qty ev)).
Proof.
  intros Hid. unfold ModEvent.lt, ModEvent.astuple.
  change (fst (ModEvent.sort_index (stop_signal req_id requested_at))) with 1.
  change (snd (ModEvent.sort_index (stop_signal req_id requested_at))) with 9999.
  change (Z.b2z (ModEvent.urgent (stop_signal req_id requested_at))) with 0.
  change (ModEvent.order_id (stop_signal req_id requested_at)) with (-1).
  change (fst (ModEvent.sort_index ev)) with (ModEvent.prio ev).
  change (snd (ModEvent.sort_index ev)) with (ModEvent.effective_qty ev).
  cbn [tuple_lt atom_eqb atom_lt]. unfold ModEvent.prio.
  destruct (ModEvent.urgent ev); cbn [Z.b2z orb andb negb];
    repeat match goal with
           | |- context [(?a =? ?b)] => destruct (Z.eqb_spec a b); try lia
           | |- context [(?a <? ?b)] => destruct (Z.ltb_spec a b); try lia
           | |- context [(?a <=? ?b)] => destruct (Z.leb_spec a b); try lia
           end;
    split; reflexivity.
Qed.

Lemma stop_signal_position_witness :
  ModEvent.lt (qty_request false 7 3 "req-1") (stop_signal "req-s" "2024-01-01 12:02:00")
  = Ok true
  /\ ModEvent.lt (stop_signal "req-s" "2024-01-01 12:02:00")
       (ModEvent.mk false 7 (Some "Ana") None None None None "req-2"
          "2024-01-01 12:01:00")
     = Ok true.
Proof.
  split.
  - destruct (stop_signal_position "req-s" "2024-01-01 12:02:00"
                (qty_request false 7 3 "req-1")) as [H _]; [cbn; lia|exact H].
  - destruct (stop_signal_position "req-s" "2024-01-01 12:02:00"
                (ModEvent.mk false 7 (Some "Ana") None None None None "req-2"
                   "2024-01-01 12:01:00")) as [_ H]; [cbn; lia|exact H].
Defined.

(** Sifting an item that can be compared with every item of the heap
    returns, and only rearranges. *)
Lemma siftdown_loop_defined {A} (lt : A -> A -> Res bool) (fuel : nat) :
  forall (h : list A) (newitem : A) (pos : nat),
  (forall x, x ∈ h -> exists r, lt newitem x = Ok r) ->
  (pos < fuel)%nat -> (pos < length h)%nat ->
  exists h', siftdown_loop lt fuel h newitem 0 pos = Ok h'
             /\ h' ≡ₚ <[pos:=newitem]> h.
Proof.
  induction fuel as [|fuel IH]; intros h newitem pos Hdef Hfuel Hlen; [lia|].
  cbn [siftdown_loop]. destruct (0 <? pos)%nat eqn:Hpos.
  - apply Nat.ltb_lt in Hpos. fold (parent pos).
    pose proof (parent_lt pos Hpos) as Hplt.
    destruct (lookup_lt_is_Some_2 h (parent pos)) as [par Hpar]; [lia|].
    rewrite Hpar.
    destruct (Hdef par) as [b Hb]; [apply list_elem_of_lookup; eauto|].
    rewrite Hb. cbn [res_bind]. destruct b.
    + destruct (IH (<[pos:=par]> h) newitem (parent pos)) as (h' & Hrun & Hperm).
      * intros x Hx. apply list_elem_of_lookup in Hx as [i Hi].
        apply list_lookup_insert_Some in Hi as [(_ & <- & _)|(_ & Hi)].
        -- apply Hdef, list_elem_of_lookup. eauto.
        -- apply Hdef, list_elem_of_lookup. eauto.
      * lia.
      * rewrite length_insert. lia.
      * exists h'. split; [exact Hrun|].
        rewrite Hperm. apply insert_move_perm; auto; lia.
    + eexists. split; reflexivity.
  - eexists. split; reflexivity.
Qed.

(** X12. Putting the stop signal on a queue of requests for real orders
    never raises, whatever fields those requests fill in: the signal is
    added and nothing is lost. *)
Theorem stop_signal_can_always_be_enqueued
    (pq : list ModEvent.t) (req_id requested_at : string) :
  Forall (fun ev => 0 <= ModEvent.order_id ev) pq ->
  exists pq',
    enqueue pq (stop_signal req_id requested_at) = Ok pq'
    /\ pq' ≡ₚ stop_signal req_id requested_at :: pq.
Proof.
  intros Hids. unfold enqueue, heappush, _siftdown.
  rewrite lookup_app_r, Nat.sub_diag by lia. cbn [lookup list_lookup].
  destruct (siftdown_loop_defined ModEvent.lt (S (length pq))
              (pq ++ [stop_signal req_id requested_at])
              (stop_signal req_id requested_at) (length pq))
    as (pq' & Hrun & Hperm).
  - intros x Hx. apply elem_of_app in Hx as [Hx|Hx].
    + rewrite Forall_forall in Hids.
      apply stop_signal_defined, Hids, Hx.
    + apply list_elem_of_singleton in Hx as ->. eexists. apply tuple_lt_irrefl.
  - lia.
  - rewrite length_app. cbn. lia.
  - exists pq'. split; [exact Hrun|]. rewrite Hperm, list_insert_id.
    + rewrite Permutation_app_comm. reflexivity.
    + rewrite lookup_app_r, Nat.sub_diag by lia. reflexivity.
Qed.

Lemma stop_signal_can_always_be_enqueued_witness :
  exists pq',
    enqueue [urgent_request; simulated_request; form_request]
      (stop_signal "req-s" "2024-01-01 12:02:00") = Ok pq'
    /\ pq' ≡ₚ stop_signal "req-s" "2024-01-01 12:02:00"
              :: [urgent_request; simulated_request; form_request].
Proof.
  apply stop_signal_can_always_be_enqueued.
  repeat constructor; cbn; lia.
Defined.

(** ** The worker on a queue of requests *)

Lemma process_event_completes (E : Env) (ev : ModEvent.t) (w : World) :
  bindable ev = true ->
  timestamps_parse E (db w) ->
  (forall m, ui_metrics_update E m = Ok tt) ->
  exists delta,
    trace (fst (process_event E ev w)) = trace w ++ delta
    /\ snd (process_event E ev w) = Ok tt
    /\ logged_ids delta = [ModEvent.req_id ev]
    /\ timestamps_parse E (db (fst (process_event E ev w))).
Proof.
  intros Hbind Hts Hobs. apply andb_true_iff in Hbind as [Hid Hbind].
  destruct (process_event_log E ev w) as (delta & Ht & Hcase).
  exists delta. split; [exact Ht|].
  assert (Hts' : timestamps_parse E (db (fst (process_event E ev w)))).
  { intros oid row Hrow.
    pose proof (process_event_lifecycle E ev w oid) as Hl. rewrite Hrow in Hl.
    destruct (db w !! oid) as [row0|] eqn:Hrow0; [|discriminate].
    injection Hl as _ _ _ Hc. rewrite Hc. exact (Hts oid row0 Hrow0). }
  destruct Hcase as [(c & lat & _ & _ & Hi & _ & Hr)|(e & Hloop & _)].
  - rewrite Hr, Hobs. auto.
  - assert (Hp : timestamp_parses E (tick w) (ModEvent.order_id ev))
      by (intros row Hrow; exact (Hts _ row Hrow)).
    pose proof (retry_loop_returns E (ModEvent.order_id ev) (build_changes ev)
                  MAX_RETRIES INITIAL_BACKOFF_S "MOD_FAIL" no_info (tick w)
                  Hp Hid Hbind (build_changes_check_qty ev)) as Hret.
    rewrite Hloop in Hret. discriminate Hret.
Qed.

Lemma _worker_loop_step (E : Env) (fuel : nat) (pq : list ModEvent.t)
    (ev : ModEvent.t) (pq' : list ModEvent.t) (w : World) :
  heappop ModEvent.lt pq = Ok (Some (ev, pq')) ->
  (ModEvent.order_id ev =? SENTINEL_ORDER_ID) = false ->
  snd (process_event E ev w) = Ok tt ->
  _worker_loop E (S fuel) pq w = _worker_loop E fuel pq' (fst (process_event E ev w)).
Proof.
  intros Hpop Hreal Hret.
  cbn [_worker_loop]. unfold bind at 1, lift at 1. rewrite Hpop, Hreal.
  unfold bind at 1.
  destruct (process_event E ev w) as [w1 r]. cbn [fst snd] in *. subst r.
  reflexivity.
Qed.

(** X13. Requests for real orders that can all be compared with one
    another and whose order ids and quantities fit a signed 64-bit integer,
    a table whose timestamps are in the stored format, an observer that
    does not raise: the worker empties the queue without an exception and
    finishes every request exactly once, in the order in which the queue
    gives them out. *)
Theorem worker_finishes_the_queue_in_its_order
    (E : Env) (evs : list ModEvent.t) (w : World) :
  comparable evs = true ->
  Forall (fun ev => ModEvent.order_id ev <> SENTINEL_ORDER_ID) evs ->
  Forall (fun ev => bindable ev = true) evs ->
  timestamps_parse E (db w) ->
  (forall m, ui_metrics_update E m = Ok tt) ->
  exists h out,
    push_all ModEvent.lt [] evs = Ok h
    /\ drain ModEvent.lt (length evs) h = Ok out
    /\ out ≡ₚ evs
    /\ snd (_worker_loop E (S (length evs)) h w) = Ok []
    /\ logged_ids (new_events w (fst (_worker_loop E (S (length evs)) h w)))
       = map ModEvent.req_id out.
Proof.
  intros Hcmp Hreal Hbind Hts Hobs.
  destruct (comparable_order _ Hcmp) as (Hdef & Hrefl & Htrans & Hasym).
  set (dom := fun a : ModEvent.t => a ∈ evs) in *.
  assert (Hgen : forall fuel h w0,
    (length h <= fuel)%nat -> heap_ok ModEvent.lt h -> Forall dom h ->
    timestamps_parse E (db w0) ->
    exists out delta,
      drain ModEvent.lt fuel h = Ok out
      /\ out ≡ₚ h
      /\ snd (_worker_loop E (S fuel) h w0) = Ok []
      /\ trace (fst (_worker_loop E (S fuel) h w0)) = trace w0 ++ delta
      /\ logged_ids delta = map ModEvent.req_id out).
  { induction fuel as [|fuel IH]; intros h w0 Hlen Hok Hdom Hts0.
    - destruct h; [|cbn in Hlen; lia].
      exists [], []. cbn. rewrite app_nil_r. auto.
    - destruct (decide (h = [])) as [->|Hne].
      + exists [], []. cbn. rewrite app_nil_r. auto.
      + destruct (heappop_ok ModEvent.lt dom Hdef Hrefl Htrans Hasym h Hok Hdom)
          as (x & h' & Hrun & Hok' & Hperm & _); [exact Hne|].
        assert (Hdomx : Forall dom (x :: h')) by (rewrite <- Hperm; exact Hdom).
        inversion Hdomx as [|? ? Hx Hdom' Heq]; clear Heq.
        assert (Hnot : (ModEvent.order_id x =? SENTINEL_ORDER_ID) = false).
        { apply Z.eqb_neq. rewrite Forall_forall in Hreal. apply Hreal. exact Hx. }
        assert (Hbx : bindable x = true).
        { rewrite Forall_forall in Hbind. apply Hbind. exact Hx. }
        destruct (process_event_completes E x w0 Hbx Hts0 Hobs)
          as (d1 & Ht1 & Hr1 & Hi1 & Hts1).
        destruct (IH h' (fst (process_event E x w0))) as (out & d2 & Hd & Hp & Hr & Ht & Hi);
          auto.
        { apply Permutation_length in Hperm. cbn [length] in Hperm, Hlen. lia. }
        exists (x :: out), (d1 ++ d2).
        cbn [drain]. rewrite Hrun. cbn [res_bind]. rewrite Hd. cbn [res_bind].
        split; [reflexivity|]. split; [rewrite Hperm, Hp; reflexivity|].
        rewrite (_worker_loop_step E (S fuel) h x h' w0 Hrun Hnot Hr1).
        split; [exact Hr|]. split.
        * rewrite Ht, Ht1, app_assoc. reflexivity.
        * rewrite logged_ids_app, Hi1, Hi. reflexivity. }
  assert (Hall : Forall dom evs) by (apply Forall_forall; intros a Ha; exact Ha).
  destruct (push_all_ok ModEvent.lt dom Hdef Htrans Hasym evs [])
    as (h & Hpush & Hok & Hperm); auto.
  { intros i x p _ Hx. destruct i; discriminate. }
  rewrite app_nil_r in Hperm.
  destruct (Hgen (length evs) h w) as (out & delta & Hd & Hp & Hr & Ht & Hi); auto.
  { apply Permutation_length in Hperm. lia. }
  { rewrite Hperm. exact Hall. }
  exists h, out. split; [exact Hpush|]. split; [exact Hd|].
  split; [rewrite Hp, Hperm; reflexivity|]. split; [exact Hr|].
  rewrite (new_events_app _ _ _ Ht). exact Hi.
Qed.

Lemma worker_finishes_the_queue_in_its_order_witness :
  exists h out,
    push_all ModEvent.lt []
      [qty_request false 7 4 "req-1"; qty_request true 7 5 "req-2";
       qty_request false 7 2 "req-3"] = Ok h
    /\ drain ModEvent.lt 3 h = Ok out
    /\ out ≡ₚ [qty_request false 7 4 "req-1"; qty_request true 7 5 "req-2";
               qty_request false 7 2 "req-3"]
    /\ snd (_worker_loop env_in_window 4 h (world_with "confirmed" confirmed_at_noon))
       = Ok []
    /\ logged_ids
         (new_events (world_with "confirmed" confirmed_at_noon)
            (fst (_worker_loop env_in_window 4 h
                    (world_with "confirmed" confirmed_at_noon))))
       = map ModEvent.req_id out.
Proof.
  apply (worker_finishes_the_queue_in_its_order env_in_window
           [qty_request false 7 4 "req-1"; qty_request true 7 5 "req-2";
            qty_request false 7 2 "req-3"]
           (world_with "confirmed" confirmed_at_noon)).
  - vm_compute. reflexivity.
  - repeat constructor; discriminate.
  - repeat constructor.
  - intros oid row Hrow. destruct (decide (oid = 7)) as [->|Hne].
    + vm_compute in Hrow. injection Hrow as <-. eexists. vm_compute. reflexivity.
    + unfold world_with, init_world, sample_db in Hrow. cbn [db] in Hrow.
      rewrite lookup_insert_ne in Hrow by congruence. rewrite lookup_empty in Hrow.
      discriminate.
  - intros m. reflexivity.
Defined.

(** ** The form of the window *)

Lemma rstrip_idem (s : string) : rstrip (rstrip s) = rstrip s.
Proof.
  induction s as [|c s IH]; [reflexivity|].
  cbn [rstrip]. destruct (rstrip s) as [|d r] eqn:Hr.
  - destruct (isspace c) eqn:Hc; [reflexivity|]. cbn [rstrip]. rewrite Hc. reflexivity.
  - change (rstrip (String c (String d r)))
      with (match rstrip (String d r) with
            | EmptyString => if isspace c then EmptyString else String c EmptyString
            | String a b => String c (String a b)
            end).
    rewrite IH. reflexivity.
Qed.

Lemma lstrip_head (s : string) :
  lstrip s = EmptyString \/ exists c t, lstrip s = String c t /\ isspace c = false.
Proof.
  induction s as [|c s IH]; [left; reflexivity|].
  cbn [lstrip]. destruct (isspace c) eqn:Hc; [exact IH|].
  right. exists c, s. split; [reflexivity|exact Hc].
Qed.

Lemma rstrip_head (c : ascii) (t : string) :
  isspace c = false -> exists r, rstrip (String c t) = String c r.
Proof.
  intros Hc. cbn [rstrip]. destruct (rstrip t) as [|d r].
  - rewrite Hc. eexists. reflexivity.
  - eexists. reflexivity.
Qed.

Lemma strip_idem (s : string) : strip (strip s) = strip s.
Proof.
  unfold strip.
  destruct (lstrip_head s) as [->|(c & t & -> & Hc)]; [reflexivity|].
  destruct (rstrip_head c t Hc) as [r Hr].
  assert (Hl : lstrip (rstrip (String c t)) = rstrip (String c t)).
  { rewrite Hr. cbn [lstrip]. rewrite Hc. reflexivity. }
  rewrite Hl. apply rstrip_idem.
Qed.

Lemma strip_if_truthy_or_none (s : string) :
  strip_if_truthy (or_none (strip s)) = or_none (strip s).
Proof.
  unfold strip_if_truthy, or_none.
  destruct (strip s) as [|c t] eqn:Hs; [reflexivity|].
  cbn [truthy fmap option_fmap option_map]. rewrite <- Hs, strip_idem. reflexivity.
Qed.

(** X14. A request built by the form of the window is already in the shape
    the worker normalises to: the change set the worker builds from it has
    exactly the fields of the request, no text field of the request is the
    empty string, a quantity is present only when positive, and the schema's
    check on the quantity holds for the change set. *)
Theorem form_request_is_already_normalised
    (py_int : string -> option Z) (urgent_var order_id : Z)
    (client product size qty_text pay req_id requested_at : string) :
  let ev := form_event py_int urgent_var order_id client product size qty_text pay
              req_id requested_at in
  build_changes ev
  = Changes.mk (ModEvent.new_client_name ev) (ModEvent.new_product ev)
      (ModEvent.new_size ev) (ModEvent.new_qty ev) (ModEvent.new_payment_method ev)
  /\ Forall (fun f => f <> Some EmptyString)
       [ModEvent.new_client_name ev; ModEvent.new_product ev; ModEvent.new_size ev;
        ModEvent.new_payment_method ev]
  /\ (forall q, ModEvent.new_qty ev = Some q -> 0 < q)
  /\ check_qty (build_changes ev) = true.
Proof.
  intros ev.
  assert (Hq : forall q, form_qty py_int qty_text = Some q -> 0 < q).
  { intros q. unfold form_qty. destruct (py_int (strip qty_text)) as [q0|]; [|discriminate].
    destruct (Z.eqb_spec q0 0); cbn [negb andb]; [discriminate|].
    destruct (Z.ltb_spec 0 q0); [|discriminate]. intros [= <-]. assumption. }
  assert (Hn : forall s, or_none (strip s) <> Some EmptyString).
  { intros s. unfold or_none. destruct (strip s); [discriminate|].
    intros [= ?]. }
  assert (Hb : build_changes ev
    = Changes.mk (ModEvent.new_client_name ev) (ModEvent.new_product ev)
        (ModEvent.new_size ev) (ModEvent.new_qty ev) (ModEvent.new_payment_method ev)).
  { unfold build_changes, ev, form_event.
    cbn [ModEvent.new_client_name ModEvent.new_product ModEvent.new_size
         ModEvent.new_qty ModEvent.new_payment_method].
    rewrite !strip_if_truthy_or_none.
    destruct (form_qty py_int qty_text) as [q|]; [|reflexivity].
    specialize (Hq q eq_refl). apply Z.ltb_lt in Hq. rewrite Hq. reflexivity. }
  split; [exact Hb|]. split; [repeat constructor; apply Hn|].
  split; [exact Hq|].
  apply build_changes_check_qty.
Qed.

(** ** The listing of orders *)

#[local] Instance newer_trans : Transitive newer.
Proof. intros a b c; unfold newer; lia. Qed.

#[local] Instance newer_total : Total newer.
Proof. intros a b; unfold newer; lia. Qed.

Lemma descending_nodup (ks : list Z) :
  StronglySorted (fun a b => b <= a) ks -> NoDup ks ->
  StronglySorted (fun a b => b < a) ks.
Proof.
  induction 1 as [|k ks Hs IH Hall]; intros Hnd; [constructor|].
  apply NoDup_cons in Hnd as [Hk Hnd].
  constructor; [apply IH, Hnd|].
  rewrite Forall_forall in Hall |- *. intros x Hx.
  assert (x <> k) by (intros ->; contradiction).
  specialize (Hall x Hx). lia.
Qed.

Lemma rows_of_keys (d : gmap Z Order.t) (l : list (Z * Order.t)) :
  Forall (fun p => d !! fst p = Some (snd p)) l ->
  Forall2 (fun k row => d !! k = Some row) l.*1 l.*2.
Proof.
  induction 1 as [|[k row] l Hp Hl IH]; [constructor|].
  cbn. constructor; assumption.
Qed.

(** X15. With a limit that fits a signed 64-bit integer, the listing shows
    the newest orders, newest first: its rows are rows of the table under
    strictly descending keys; there are as many as the limit allows (all of
    them for a negative limit, as with SQLite's LIMIT); and an order that
    is left out is older than every order shown. With any other limit the
    listing raises OverflowError. *)
Theorem list_recent_gives_the_newest_orders (d : gmap Z Order.t) (limit : Z) :
  if in_int64 limit then
    exists (rows : list Order.t) (ks : list Z),
      list_recent d limit = Ok rows
      /\ Forall2 (fun k row => d !! k = Some row) ks rows
      /\ StronglySorted (fun a b => b < a) ks
      /\ length ks = (if limit <? 0 then size d else Nat.min (Z.to_nat limit) (size d))
      /\ forall k, is_Some (d !! k) -> k ∉ ks -> Forall (fun k' => k < k') ks
  else list_recent d limit = Raise OverflowError.
Proof.
  unfold list_recent. destruct (in_int64 limit); cbn [negb]; [|reflexivity].
  set (l := @merge_sort _ newer newer_dec (map_to_list d)).
  assert (Hperm : l ≡ₚ map_to_list d) by apply merge_sort_Permutation.
  assert (Hsort : StronglySorted (fun a b => b < a) l.*1).
  { apply descending_nodup.
    - apply (StronglySorted_fmap fst newer); [intros x y Hxy; exact Hxy|].
      apply (StronglySorted_merge_sort newer).
    - rewrite Hperm. apply NoDup_fst_map_to_list. }
  assert (Hrows : Forall (fun p => d !! fst p = Some (snd p)) l).
  { apply Forall_forall. intros [k row] Hin. rewrite Hperm in Hin.
    apply elem_of_map_to_list in Hin. exact Hin. }
  assert (Hlen : length l = size d).
  { rewrite Hperm. apply length_map_to_list. }
  assert (Hgen : forall n,
    Forall2 (fun k row => d !! k = Some row) (take n l.*1) (take n l.*2)
    /\ StronglySorted (fun a b => b < a) (take n l.*1)
    /\ length (take n l.*1) = Nat.min n (size d)
    /\ forall k, is_Some (d !! k) -> k ∉ take n l.*1 ->
         Forall (fun k' => k < k') (take n l.*1)).
  { intros n. split; [|split; [|split]].
    - rewrite <- !fmap_take. apply rows_of_keys.
      apply Forall_take. exact Hrows.
    - rewrite <- (take_drop n l.*1) in Hsort.
      exact (StronglySorted_app_1_l _ _ _ Hsort).
    - rewrite length_take, length_fmap, Hlen. reflexivity.
    - intros k [row Hk] Hout. apply Forall_forall. intros k' Hk'.
      assert (Hin : k ∈ l.*1).
      { apply elem_of_map_to_list in Hk. rewrite <- Hperm in Hk.
        apply (list_elem_of_fmap_2 fst) in Hk. exact Hk. }
      rewrite <- (take_drop n l.*1) in Hin, Hsort.
      apply elem_of_app in Hin as [Hin|Hin]; [contradiction|].
      exact (StronglySorted_app_1_elem_of _ _ _ _ _ Hsort Hk' Hin). }
  fold l. cbv zeta.
  destruct (limit <? 0).
  - exists l.*2, l.*1. split; [reflexivity|].
    destruct (Hgen (length l)) as (H1 & H2 & H3 & H4).
    assert (Ha : forall {A} (f : Z * Order.t -> A),
              take (length l) (f <$> l) = f <$> l).
    { intros A f. apply take_ge. rewrite length_fmap. lia. }
    rewrite (Ha _ snd) in H1. rewrite !(Ha _ fst) in H1, H2, H3, H4.
    split; [exact H1|]. split; [exact H2|]. split; [|exact H4].
    rewrite H3, Hlen. lia.
  - exists (take (Z.to_nat limit) l.*2), (take (Z.to_nat limit) l.*1).
    split; [reflexivity|]. apply Hgen.
Qed.

(** ** Simulated requests *)

(** X17. Whatever the simulation draws (a product and a size of its two
    lists, a quantity from 1 to 4), the request passes the three closed-set
    checks of the worker, and the change set the worker builds from it
    has exactly the product, the size and the quantity drawn. *)
Theorem simulated_requests_pass_validation
    (urgent : bool) (order_id qty : Z) (size product req_id requested_at : string) :
  product ∈ simulated_products -> size ∈ simulated_sizes -> 1 <= qty <= 4 ->
  locally_valid (simulated_event urgent order_id qty size product req_id requested_at)
  = true
  /\ build_changes (simulated_event urgent order_id qty size product req_id requested_at)
     = Changes.mk None (Some product) (Some size) (Some qty) None.
Proof.
  intros Hp Hs Hq.
  assert (Hb : build_changes
                 (simulated_event urgent order_id qty size product req_id requested_at)
               = Changes.mk None (Some product) (Some size) (Some qty) None).
  { unfold build_changes, simulated_event.
    cbn [ModEvent.new_client_name ModEvent.new_product ModEvent.new_size
         ModEvent.new_qty ModEvent.new_payment_method].
    assert (Hpos : (0 <? qty) = true) by (apply Z.ltb_lt; lia). rewrite Hpos.
    unfold simulated_products, simulated_sizes in *.
    repeat (apply elem_of_cons in Hp as [->|Hp]);
      [ | |apply elem_of_nil in Hp; destruct Hp];
      repeat (apply elem_of_cons in Hs as [->|Hs]);
      try (apply elem_of_nil in Hs; destruct Hs); reflexivity. }
  split; [|exact Hb].
  unfold locally_valid. rewrite Hb.
  cbn [Changes.product Changes.size Changes.payment_method present_invalid].
  rewrite !bool_decide_eq_true_2; [reflexivity| |].
  - unfold simulated_sizes, valid_sizes in *. exact Hs.
  - unfold simulated_products, valid_products in *. exact Hp.
Qed.

Lemma simulated_requests_pass_validation_witness :
  locally_valid (simulated_event true 7 3 "grande" "hawaiana" "req-1" "2024-01-01 12:01:00")
  = true
  /\ build_changes
       (simulated_event true 7 3 "grande" "hawaiana" "req-1" "2024-01-01 12:01:00")
     = Changes.mk None (Some "hawaiana") (Some "grande") (Some 3) None.
Proof.
  apply (simulated_requests_pass_validation true 7 3 "grande" "hawaiana" "req-1"
           "2024-01-01 12:01:00").
  - unfold simulated_products. list_mem.
  - unfold simulated_sizes. list_mem.
  - lia.
Defined.
